(** * go-autumn-config: the setup and validation pipeline of [setup.go]

    A shallow embedding of package [auconfig] (file [setup.go]) together
    with the properties of its precedence-registration and validation
    passes.  The package is a thin layer over two external libraries,
    [pflag] (command line flags) and [viper] (layered settings); both are
    represented here by small state models of the operations the package
    calls.  Every call that leaves the package is also appended to a
    chronological trace, so that statements about "what is called, in which
    order, how often" can be read off that trace. *)

From Stdlib Require Import ZArith Ascii String List Bool Lia.
From stdpp Require Import gmap strings list fin_maps pretty.

Local Open Scope string_scope.
Local Open Scope list_scope.
Local Open Scope Z_scope.

(* ===================================================================== *)
(** * Go strings, runes and the regular expression of [setupEnv]          *)
(* ===================================================================== *)

(** A Go [string] is a sequence of bytes; [regexp] walks it rune by rune
    with [utf8.DecodeRuneInString].  The decoder below follows package
    [unicode/utf8]: the [first] table classifies the leading byte, the
    low three bits of the class are the encoded size and the high nibble
    selects the range the second byte must lie in. *)
Module utf8.

Definition RuneError : Z := 0xFFFD.

Definition maskx : Z := 0x3F.
Definition mask2 : Z := 0x1F.
Definition mask3 : Z := 0x0F.
Definition mask4 : Z := 0x07.

Definition locb : Z := 0x80.
Definition hicb : Z := 0xBF.

Definition xx : Z := 0xF1. (* invalid: size 1 *)
Definition as_ : Z := 0xF0. (* ASCII: size 1 *)
Definition s1 : Z := 0x02. (* accept 0, size 2 *)
Definition s2 : Z := 0x13. (* accept 1, size 3 *)
Definition s3 : Z := 0x03. (* accept 0, size 3 *)
Definition s4 : Z := 0x23. (* accept 2, size 3 *)
Definition s5 : Z := 0x34. (* accept 3, size 4 *)
Definition s6 : Z := 0x04. (* accept 0, size 4 *)
Definition s7 : Z := 0x44. (* accept 4, size 4 *)

(** The 256-entry table [first], written as its ranges. *)
Definition first (b : Z) : Z :=
  if b <? 0x80 then as_
  else if b <? 0xC2 then xx
  else if b <? 0xE0 then s1
  else if b =? 0xE0 then s2
  else if b <? 0xED then s3
  else if b =? 0xED then s4
  else if b <? 0xF0 then s3
  else if b =? 0xF0 then s5
  else if b <? 0xF4 then s6
  else if b =? 0xF4 then s7
  else xx.

Record acceptRange := { lo : Z; hi : Z }.

(** [acceptRanges[i]]; entries 5..15 of the Go array are zero. *)
Definition acceptRanges (i : Z) : acceptRange :=
  if i =? 0 then {| lo := locb; hi := hicb |}
  else if i =? 1 then {| lo := 0xA0; hi := hicb |}
  else if i =? 2 then {| lo := locb; hi := 0x9F |}
  else if i =? 3 then {| lo := 0x90; hi := hicb |}
  else if i =? 4 then {| lo := locb; hi := 0x8F |}
  else {| lo := 0; hi := 0 |}.

Definition byte (c : ascii) : Z := Z.of_N (N_of_ascii c).

(** [DecodeRuneInString s]: the first rune of [s] and its width in
    bytes.  For the size-1 classes Go selects between the byte and
    [RuneError] with a sign-extended mask of bit 0 of the class
    ([as_] is even, [xx] is odd); the selection is written as a test. *)
Definition DecodeRuneInString (s : list ascii) : Z * nat :=
  match s with
  | [] => (RuneError, 0%nat)
  | c0 :: t0 =>
    let b0 := byte c0 in
    let x := first b0 in
    if as_ <=? x then
      ((if Z.testbit x 0 then RuneError else b0), 1%nat)
    else
      let sz := Z.land x 7 in
      let accept := acceptRanges (Z.shiftr x 4) in
      if Z.of_nat (length s) <? sz then (RuneError, 1%nat)
      else match t0 with
      | [] => (RuneError, 1%nat)
      | c1 :: t1 =>
        let b1 := byte c1 in
        if (b1 <? lo accept) || (hi accept <? b1) then (RuneError, 1%nat)
        else if sz <=? 2 then
          (Z.lor (Z.shiftl (Z.land b0 mask2) 6) (Z.land b1 maskx), 2%nat)
        else match t1 with
        | [] => (RuneError, 1%nat)
        | c2 :: t2 =>
          let b2 := byte c2 in
          if (b2 <? locb) || (hicb <? b2) then (RuneError, 1%nat)
          else if sz <=? 3 then
            (Z.lor (Z.lor (Z.shiftl (Z.land b0 mask3) 12)
                          (Z.shiftl (Z.land b1 maskx) 6))
                   (Z.land b2 maskx), 3%nat)
          else match t2 with
          | [] => (RuneError, 1%nat)
          | c3 :: _ =>
            let b3 := byte c3 in
            if (b3 <? locb) || (hicb <? b3) then (RuneError, 1%nat)
            else
              (Z.lor (Z.lor (Z.lor (Z.shiftl (Z.land b0 mask4) 18)
                                   (Z.shiftl (Z.land b1 maskx) 12))
                            (Z.shiftl (Z.land b2 maskx) 6))
                     (Z.land b3 maskx), 4%nat)
          end
        end
      end
  end.

End utf8.

(** The pattern of [setupEnv] is the single negated character class
    [[^a-z0-9]]: it matches exactly one rune, any rune outside the two
    ranges. *)
Module regexp.

(** Membership of a rune in the ranges [a-z] and [0-9]. *)
Definition in_a_z_0_9 (r : Z) : bool :=
  ((0x61 <=? r) && (r <=? 0x7A)) || ((0x30 <=? r) && (r <=? 0x39)).

(** Whether the pattern [[^a-z0-9]] matches the rune [r]. *)
Definition re_matches (r : Z) : bool := negb (in_a_z_0_9 r).

(** The loop of [Regexp.replaceAll] for this pattern: from byte offset
    [pos], decode the rune there; a matching rune appends [repl] to the
    buffer, any other rune is copied; then advance by the rune's width.
    [fuel] bounds the number of iterations; every iteration advances by
    at least one byte, so [length src] iterations are enough. *)
Fixpoint replaceAll (fuel : nat) (src repl : list ascii) (pos : nat)
    (buf : list ascii) : list ascii :=
  match fuel with
  | O => buf
  | S fuel' =>
    if (pos <? length src)%nat then
      let '(r, width) := utf8.DecodeRuneInString (drop pos src) in
      if re_matches r
      then replaceAll fuel' src repl (pos + width)%nat (buf ++ repl)
      else replaceAll fuel' src repl (pos + width)%nat
                      (buf ++ take width (drop pos src))
    else buf
  end.

(** [re.ReplaceAllString(src, repl)] for [re = MustCompile("[^a-z0-9]")]
    and a replacement without [$] expansions. *)
Definition ReplaceAllString (src repl : string) : string :=
  string_of_list_ascii
    (replaceAll (length (list_ascii_of_string src))
                (list_ascii_of_string src) (list_ascii_of_string repl)
                0%nat []).

End regexp.

(** The two functions of package [strings] that the settings store
    applies to a key. *)
Module strings.

Definition lower (c : ascii) : ascii :=
  if (0x41 <=? utf8.byte c) && (utf8.byte c <=? 0x5A)
  then ascii_of_N (Z.to_N (utf8.byte c + 0x20))
  else c.

(** [strings.ToLower] as it works on a string of ASCII bytes: the
    letters [A-Z] become [a-z], byte by byte.  A string with other bytes
    is mapped by Go rune by rune through the case tables of package
    [unicode]; those tables are not reproduced here, such bytes are left
    as they are, and what is stated about the lower case form of a key is
    stated for keys of ASCII bytes. *)
Definition ToLower (s : string) : string :=
  string_of_list_ascii (map lower (list_ascii_of_string s)).

(** [strings.Split(s, sep)] for a separator of one byte: the pieces
    between the separators, one more than there are separators. *)
Fixpoint Split (s : string) (sep : ascii) : list string :=
  match s with
  | EmptyString => [EmptyString]
  | String c s' =>
    if decide (c = sep) then EmptyString :: Split s' sep
    else match Split s' sep with
         | piece :: pieces => String c piece :: pieces
         | [] => [String c EmptyString]
         end
  end.

End strings.

(** The environment variable name that [setupEnv] derives from a key:
    [["CONFIG_" + re.ReplaceAllString(item.Key, "_")]]. *)
Definition derivedEnvName (key : string) : string :=
  "CONFIG_" +:+ regexp.ReplaceAllString key "_".


Local Close Scope Z_scope.

(* ===================================================================== *)
(** * Values                                                              *)
(* ===================================================================== *)

(** A Go [error] is represented by its message; [nil] is [None]. *)
Definition error : Type := string.

(** The dynamic values an [interface{}] default can hold.  The first
    eleven constructors are the types that the type switch of
    [initializeFlags] tests for; the remaining ones stand for every other
    dynamic type: wider integers, [nil], structured records, and
    [VOther] for a value of any further type, given by the name of the
    type. *)
#[local] Set Warnings "-register-all".
Inductive GoValue : Type :=
| VString (s : string)
| VInt (n : Z)
| VInt8 (n : Z)
| VInt16 (n : Z)
| VInt32 (n : Z)
| VUint (n : Z)
| VUint8 (n : Z)
| VUint16 (n : Z)
| VUint32 (n : Z)
| VBool (b : bool)
| VStringSlice (l : list string)
| VInt64 (n : Z)
| VUint64 (n : Z)
| VNil
| VStruct (tname : string) (fields : list (string * GoValue))
| VOther (tname : string).
#[local] Set Warnings "+register-all".

(** The outcome of calling a function value supplied by the application
    (a callback or a validator): it returns, it panics, or it ends the
    process.  A [nil] function value behaves as one that always panics. *)
Inductive Call (A : Type) : Type :=
| Returns (a : A)
| Panics (v : string)
| Exits (code : Z).
Arguments Returns {A} a.
Arguments Panics {A} v.
Arguments Exits {A} code.

(* ===================================================================== *)
(** * The flag library                                                    *)
(* ===================================================================== *)

Module pflag.

(** The value held by a flag; one constructor per flag kind that
    [initializeFlags] registers. *)
Inductive FlagValue : Type :=
| FString (s : string)
| FInt (n : Z)
| FInt8 (n : Z)
| FInt16 (n : Z)
| FInt32 (n : Z)
| FUint (n : Z)
| FUint8 (n : Z)
| FUint16 (n : Z)
| FUint32 (n : Z)
| FBool (b : bool)
| FStringSlice (l : list string).

Inductive FlagKind : Type :=
| KString | KInt | KInt8 | KInt16 | KInt32
| KUint | KUint8 | KUint16 | KUint32 | KBool | KStringSlice.

Definition kind_of (v : FlagValue) : FlagKind :=
  match v with
  | FString _ => KString
  | FInt _ => KInt
  | FInt8 _ => KInt8
  | FInt16 _ => KInt16
  | FInt32 _ => KInt32
  | FUint _ => KUint
  | FUint8 _ => KUint8
  | FUint16 _ => KUint16
  | FUint32 _ => KUint32
  | FBool _ => KBool
  | FStringSlice _ => KStringSlice
  end.

Definition kind_eqb (a b : FlagKind) : bool :=
  match a, b with
  | KString, KString | KInt, KInt | KInt8, KInt8 | KInt16, KInt16
  | KInt32, KInt32 | KUint, KUint | KUint8, KUint8 | KUint16, KUint16
  | KUint32, KUint32 | KBool, KBool | KStringSlice, KStringSlice => true
  | _, _ => false
  end.

(** The package variables a flag can be bound to with [StringVar]. *)
Inductive PackageVar : Type := VarConfigPath | VarSecretsPath.

#[global] Instance PackageVar_eq_dec : EqDecision PackageVar.
Proof. solve_decision. Defined.

(** A registered flag.  [DefValue] is the default it was registered
    with, [Changed] whether the command line set it, [Var] the package
    variable it was declared on with [StringVar].  Such a flag and its
    variable are one storage location in Go: [Value] is then the content
    of the variable, and every write to the variable is a write to
    [Value] (see [store_var]). *)
Record Flag : Type := {
  Name : string;
  Usage : string;
  Value : FlagValue;
  DefValue : FlagValue;
  Changed : bool;
  Var : option PackageVar
}.

Definition newFlag (name : string) (value : FlagValue) (usage : string)
    (var : option PackageVar) : Flag :=
  {| Name := name; Usage := usage; Value := value; DefValue := value;
     Changed := false; Var := var |}.

Definition set (fl : Flag) (v : FlagValue) : Flag :=
  {| Name := Name fl; Usage := Usage fl; Value := v;
     DefValue := DefValue fl; Changed := true; Var := Var fl |}.

(** The flag set [pflag.CommandLine]: its name, which is the name the
    program was started under, and the flags by name. *)
Record FlagSet : Type := { name : string; formal : gmap string Flag }.

(** [FlagSet.AddFlag]: a name that is already present makes pflag
    panic; [None] stands for that panic. *)
Definition AddFlag (fs : FlagSet) (fl : Flag) : option FlagSet :=
  match formal fs !! Name fl with
  | Some _ => None
  | None => Some {| name := name fs; formal := <[Name fl := fl]> (formal fs) |}
  end.

(** The value with which [AddFlag] panics. *)
Definition redefined (fs : FlagSet) (flagname : string) : string :=
  name fs +:+ " flag redefined: " +:+ flagname.

(** A write of [v] to the package variable [x], seen from the flag set:
    the flags declared on [x] hold [v]. *)
Definition store_flag (x : PackageVar) (v : FlagValue) (fl : Flag) : Flag :=
  if decide (Var fl = Some x)
  then {| Name := Name fl; Usage := Usage fl; Value := v;
          DefValue := DefValue fl; Changed := Changed fl; Var := Var fl |}
  else fl.

Definition store_var (fs : FlagSet) (x : PackageVar) (v : FlagValue)
    : FlagSet :=
  {| name := name fs; formal := store_flag x v <$> formal fs |}.

(** [FlagSet.Lookup]: the flag of that name, or [nil]. *)
Definition Lookup (fs : FlagSet) (name : string) : option Flag :=
  formal fs !! name.

(** One command line argument [--name=value] applied to the flag set:
    an unknown name or a value that does not read as the flag's kind is
    a parse error ([None]). *)
Definition setArg (fs : FlagSet) (flagname : string) (v : FlagValue)
    : option (FlagSet * Flag) :=
  match formal fs !! flagname with
  | None => None
  | Some fl =>
    if kind_eqb (kind_of v) (kind_of (Value fl))
    then let fl' := set fl v in
         Some ({| name := name fs;
                  formal := <[flagname := fl']> (formal fs) |}, fl')
    else None
  end.

End pflag.

(* ===================================================================== *)
(** * The settings store                                                  *)
(* ===================================================================== *)

Module viper.

(** What a nested map of the store holds under a key: a value, or a
    further map.  (An application default that is itself a map is not
    represented among the values: the store would take it apart into
    maps of its own.) *)
#[local] Set Warnings "-register-all".
Inductive Node : Type :=
| Leaf (v : GoValue)
| Dir (m : gmap string Node).
#[local] Set Warnings "+register-all".

(** The layers of the store that the package populates ([defaults],
    [env], [pflags]) and the layer read from the configuration and
    secrets files ([config]).  The store keeps [defaults] and [config] as
    nested maps, one level per piece of the lower case key between its
    dots.  A flag binding holds the name of the bound flag in
    [pflag.CommandLine].  The bindings of [env] and [pflags] are kept
    here under the key as the package passes it, and one name per key;
    the store itself files them under the lower case key. *)
Record Viper : Type := {
  defaults : gmap string Node;
  env : gmap string string;
  pflags : gmap string string;
  config : gmap string Node
}.

Definition keyDelim : ascii := "."%char.

(** The map under [k], or a new one when there is none or a value is in
    its place. *)
Definition submap (m : gmap string Node) (k : string) : gmap string Node :=
  match m !! k with
  | Some (Dir m') => m'
  | _ => ∅
  end.

(** [deepSearch(m, path)] followed by the assignment
    [deepestMap[lastKey] = value].  The Go code walks down the maps,
    putting a new map wherever a piece of the path has no map yet, and
    assigns into the map it arrives at; here the walk builds the changed
    maps on its way back. *)
Fixpoint deepSet (path : list string) (lastKey : string) (value : Node)
    (m : gmap string Node) : gmap string Node :=
  match path with
  | [] => <[lastKey := value]> m
  | k :: path' => <[k := Dir (deepSet path' lastKey value (submap m k))]> m
  end.

(** [SetDefault(key, value)]: the key is lower-cased and split at the
    dots; the value goes under the last piece, in the map that the pieces
    before it lead to. *)
Definition SetDefault (v : Viper) (key : string) (value : GoValue) : Viper :=
  let key := strings.ToLower key in
  let path := strings.Split key keyDelim in
  let lastKey := strings.ToLower (List.last path "") in
  {| defaults := deepSet (removelast path) lastKey (Leaf value) (defaults v);
     env := env v; pflags := pflags v; config := config v |}.

(** [searchMap(source, path)]: what the nested maps hold at the end of
    the path; [None] when a piece is missing or a value stands where a
    map is needed. *)
Fixpoint searchMap (source : gmap string Node) (path : list string)
    : option Node :=
  match path with
  | [] => Some (Dir source)
  | k :: path' =>
    match source !! k with
    | Some next =>
      match path' with
      | [] => Some next
      | _ :: _ =>
        match next with
        | Dir m => searchMap m path'
        | Leaf _ => None
        end
      end
    | None => None
    end
  end.

(** [BindEnv(key, envName)] with both arguments given: the key is bound
    to the name and no error is returned, whatever the key. *)
Definition BindEnv (v : Viper) (key envName : string) : Viper * option error :=
  ({| defaults := defaults v; env := <[key := envName]> (env v);
      pflags := pflags v; config := config v |}, None).

(** A byte between the quotes of [%q]: a quote or a backslash gets a
    backslash in front, the other printable ASCII bytes stand for
    themselves, a control byte is written as its escape.  Bytes from 0x80
    on are copied, as [%q] does for printable characters. *)
Definition hex_digit (n : N) : ascii :=
  ascii_of_N (if (n <? 10)%N then 48 + n else 87 + n)%N.

Definition backslash : ascii := ascii_of_nat 92.

Definition quoted (c : ascii) : string :=
  let n := N_of_ascii c in
  if decide (n = 34%N) then String backslash (String c "")
  else if decide (n = 92%N) then String backslash (String c "")
  else if decide (n = 7%N) then String backslash "a"
  else if decide (n = 8%N) then String backslash "b"
  else if decide (n = 12%N) then String backslash "f"
  else if decide (n = 10%N) then String backslash "n"
  else if decide (n = 13%N) then String backslash "r"
  else if decide (n = 9%N) then String backslash "t"
  else if decide (n = 11%N) then String backslash "v"
  else if ((n <? 32) || (n =? 127))%N
       then String backslash
              (String "x"%char
                 (String (hex_digit (n / 16)) (String (hex_digit (n mod 16)) "")))
       else String c "".

Definition quote (s : string) : string :=
  String (ascii_of_nat 34)
    (foldr (fun c r => quoted c +:+ r) (String (ascii_of_nat 34) "")
           (list_ascii_of_string s)).

(** [BindPFlag(key, flag)]: a [nil] flag is an error, any other flag is
    bound to the key. *)
Definition BindPFlag (v : Viper) (key : string) (flag : option pflag.Flag)
    : Viper * option error :=
  match flag with
  | None => (v, Some ("flag for " +:+ quote key +:+ " is nil"))
  | Some fl =>
    ({| defaults := defaults v; env := env v;
        pflags := <[key := pflag.Name fl]> (pflags v);
        config := config v |}, None)
  end.

End viper.

(** Everything outside the package: the flag set, the settings store,
    the command line (as the arguments [--name=value], each value already
    read as a value of some kind) and the process environment. *)
Record Ext : Type := {
  CommandLine : pflag.FlagSet;
  store : viper.Viper;
  os_Args : list (string * pflag.FlagValue);
  os_Environ : gmap string string
}.

(** The value that the store hands out for a flag.  It goes by the
    kind of the flag: an [int] for the signed integers, a [bool], a
    sequence of strings, and for every other kind the text of the
    value. *)
Definition flag_to_value (v : pflag.FlagValue) : GoValue :=
  match v with
  | pflag.FString s => VString s
  | pflag.FInt n | pflag.FInt8 n | pflag.FInt16 n | pflag.FInt32 n => VInt n
  | pflag.FUint n | pflag.FUint8 n | pflag.FUint16 n | pflag.FUint32 n =>
    VString (pretty n)
  | pflag.FBool b => VBool b
  | pflag.FStringSlice l => VStringSlice l
  end.

(** The value of a bound flag that the command line has set. *)
Definition flag_layer (e : Ext) (key : string) : option GoValue :=
  match viper.pflags (store e) !! key with
  | Some fname =>
    match pflag.Lookup (CommandLine e) fname with
    | Some fl => if pflag.Changed fl
                 then Some (flag_to_value (pflag.Value fl)) else None
    | None => None
    end
  | None => None
  end.

(** The value of a bound flag, set or not: the last resort of a
    lookup. *)
Definition flag_default (e : Ext) (key : string) : option GoValue :=
  match viper.pflags (store e) !! key with
  | Some fname =>
    match pflag.Lookup (CommandLine e) fname with
    | Some fl => Some (flag_to_value (pflag.Value fl))
    | None => None
    end
  | None => None
  end.

(** The value of a bound environment variable that is set and not
    empty. *)
Definition env_layer (e : Ext) (key : string) : option GoValue :=
  match viper.env (store e) !! key with
  | Some name =>
    match os_Environ e !! name with
    | Some s => if decide (s = "") then None else Some (VString s)
    | None => None
    end
  | None => None
  end.

(** The path of a key in the nested maps: the pieces of the lower case
    key between its dots. *)
Definition key_path (key : string) : list string :=
  strings.Split (strings.ToLower key) viper.keyDelim.

(** A lookup in a layer goes on to the next layer when it finds nothing
    or finds [nil]. *)
Definition is_nil (found : viper.Node) : bool :=
  match found with
  | viper.Leaf VNil => true
  | _ => false
  end.

Definition non_nil (found : option viper.Node) : option viper.Node :=
  match found with
  | Some n => if is_nil n then None else Some n
  | None => None
  end.

(** [viper.Get(key)]: the resolved value of a key, in the precedence of
    the store: command line flag, environment variable, configuration
    and secrets files, declared default, and at last the value of a bound
    flag that was not set; [nil] when none of them has the key.  The
    layers that the package does not use (overrides, aliases, remote
    stores) are left out. *)
Definition viper_Get (e : Ext) (key : string) : viper.Node :=
  match flag_layer e key with
  | Some v => viper.Leaf v
  | None =>
    match env_layer e key with
    | Some v => viper.Leaf v
    | None =>
      match non_nil (viper.searchMap (viper.config (store e)) (key_path key)) with
      | Some found => found
      | None =>
        match non_nil (viper.searchMap (viper.defaults (store e))
                                       (key_path key)) with
        | Some found => found
        | None =>
          match flag_default e key with
          | Some v => viper.Leaf v
          | None => viper.Leaf VNil
          end
        end
      end
    end
  end.

(* ===================================================================== *)
(** * Package state                                                       *)
(* ===================================================================== *)

(** [auconfigapi.ConfigItem].  The validator reads the resolved store. *)
Record ConfigItem : Type := {
  Key : string;
  Default : GoValue;
  Description : string;
  EnvName : string;
  FlagName : string;
  Validate : string -> Ext -> Call (option error)
}.

(** The assignment [item.EnvName = name] on a [ConfigItem] value. *)
Definition set_EnvName (item : ConfigItem) (name : string) : ConfigItem :=
  {| Key := Key item; Default := Default item;
     Description := Description item; EnvName := name;
     FlagName := FlagName item; Validate := Validate item |}.

(** [auconfigapi.ConfigNeedsNoValidation]. *)
Definition ConfigNeedsNoValidation : string -> Ext -> Call (option error) :=
  fun _ _ => Returns None.

Definition ConfigFailFunc : Type := error -> Call unit.
Definition ConfigWarnFunc : Type := string -> Call unit.

(** The package-level variables of [setup.go].  [configItems] is the slice
    handed over by the application: it shares its elements with the
    caller's slice, so a change of this field is a change of the caller's
    records. *)
Record Globals : Type := {
  configPath : string;
  secretsPath : string;
  failFunction : ConfigFailFunc;
  warnFunction : ConfigWarnFunc;
  configItems : list ConfigItem;
  configItemKeysWithNoFlags : gmap string bool
}.

(** The calls that leave the package, in the order they are made. *)
Inductive Event : Type :=
| EvAddFlag (name : string) (value : pflag.FlagValue) (usage : string)
| EvParse
| EvSetDefault (key : string) (value : GoValue)
| EvBindEnv (key envName : string)
| EvBindPFlag (key flagname : string)
| EvWarnFunction (message : string)
| EvFailFunction (err : error)
| EvValidate (key : string).

Record World : Type := {
  globals : Globals;
  ext : Ext;
  trace : list Event
}.

(* ===================================================================== *)
(** * Control flow: normal return, panic, process exit                    *)
(* ===================================================================== *)

Inductive Outcome (A : Type) : Type :=
| Normal (a : A) (w : World)
| Panic (v : string) (w : World)
| Exit (code : Z) (w : World).
Arguments Normal {A} a w.
Arguments Panic {A} v w.
Arguments Exit {A} code w.

Definition M (A : Type) : Type := World -> Outcome A.

Definition ret {A} (a : A) : M A := fun w => Normal a w.

Definition bind {A B} (m : M A) (k : A -> M B) : M B :=
  fun w =>
    match m w with
    | Normal a w' => k a w'
    | Panic v w' => Panic v w'
    | Exit c w' => Exit c w'
    end.

Declare Scope go_scope.
Delimit Scope go_scope with go.
Notation "x <- m ;; k" := (bind m (fun x => k))
  (at level 100, m at next level, right associativity) : go_scope.
Notation "m ;; k" := (bind m (fun _ => k))
  (at level 100, right associativity) : go_scope.
Local Open Scope go_scope.

(** The state in which an operation leaves the process, however it
    ends. *)
Definition final {A} (o : Outcome A) : World :=
  match o with
  | Normal _ w => w
  | Panic _ w => w
  | Exit _ w => w
  end.

Definition panic {A} (v : string) : M A := fun w => Panic v w.

Definition get_globals : M Globals := fun w => Normal (globals w) w.
Definition get_ext : M Ext := fun w => Normal (ext w) w.

Definition put_globals (g : Globals) : M unit :=
  fun w => Normal tt {| globals := g; ext := ext w; trace := trace w |}.

Definition put_ext (e : Ext) : M unit :=
  fun w => Normal tt {| globals := globals w; ext := e; trace := trace w |}.

Definition emit (ev : Event) : M unit :=
  fun w => Normal tt {| globals := globals w; ext := ext w;
                        trace := trace w ++ [ev] |}.

(** Calling a function value supplied by the application. *)
Definition invoke {A} (c : Call A) : M A :=
  fun w =>
    match c with
    | Returns a => Normal a w
    | Panics v => Panic v w
    | Exits code => Exit code w
    end.

(** [for _, x := range l { body }]. *)
Fixpoint range {A} (l : list A) (body : A -> M unit) : M unit :=
  match l with
  | [] => ret tt
  | x :: l' => body x ;; range l' body
  end.

Definition exit {A} (code : Z) : M A := fun w => Exit code w.

(* ===================================================================== *)
(** * Calls into the libraries and into the application                   *)
(* ===================================================================== *)

Definition with_CommandLine (e : Ext) (fs : pflag.FlagSet) : Ext :=
  {| CommandLine := fs; store := store e; os_Args := os_Args e;
     os_Environ := os_Environ e |}.

Definition with_store (e : Ext) (v : viper.Viper) : Ext :=
  {| CommandLine := CommandLine e; store := v; os_Args := os_Args e;
     os_Environ := os_Environ e |}.

(** The package variable [x] with the new content [s]. *)
Definition with_var (g : Globals) (x : pflag.PackageVar) (s : string)
    : Globals :=
  match x with
  | pflag.VarConfigPath =>
    {| configPath := s; secretsPath := secretsPath g;
       failFunction := failFunction g; warnFunction := warnFunction g;
       configItems := configItems g;
       configItemKeysWithNoFlags := configItemKeysWithNoFlags g |}
  | pflag.VarSecretsPath =>
    {| configPath := configPath g; secretsPath := s;
       failFunction := failFunction g; warnFunction := warnFunction g;
       configItems := configItems g;
       configItemKeysWithNoFlags := configItemKeysWithNoFlags g |}
  end.

(** A write through the pointer that [StringVar] was given: the package
    variable changes, and with it the value of the flags that were
    declared on the variable. *)
Definition assign_var (x : pflag.PackageVar) (s : string) : M unit :=
  g <- get_globals ;;
  put_globals (with_var g x s) ;;
  e <- get_ext ;;
  put_ext (with_CommandLine e
             (pflag.store_var (CommandLine e) x (pflag.FString s))).

(** Registration of a flag in [pflag.CommandLine]; the common tail of
    [pflag.String], [pflag.Int], ..., [pflag.StringVar]. *)
Definition pflag_Var (value : pflag.FlagValue) (name usage : string)
    (var : option pflag.PackageVar) : M unit :=
  emit (EvAddFlag name value usage) ;;
  e <- get_ext ;;
  match pflag.AddFlag (CommandLine e) (pflag.newFlag name value usage var) with
  | None => panic (pflag.redefined (CommandLine e) name)
  | Some fs => put_ext (with_CommandLine e fs)
  end.

(** [pflag.StringVar(&x, name, value, usage)]: the default is written
    through the pointer, then the flag is added. *)
Definition pflag_StringVar (x : pflag.PackageVar) (name value usage : string)
    : M unit :=
  assign_var x value ;;
  pflag_Var (pflag.FString value) name usage (Some x).

Definition pflag_String (name value usage : string) : M unit :=
  pflag_Var (pflag.FString value) name usage None.
Definition pflag_Int (name : string) (value : Z) (usage : string) : M unit :=
  pflag_Var (pflag.FInt value) name usage None.
Definition pflag_Int8 (name : string) (value : Z) (usage : string) : M unit :=
  pflag_Var (pflag.FInt8 value) name usage None.
Definition pflag_Int16 (name : string) (value : Z) (usage : string) : M unit :=
  pflag_Var (pflag.FInt16 value) name usage None.
Definition pflag_Int32 (name : string) (value : Z) (usage : string) : M unit :=
  pflag_Var (pflag.FInt32 value) name usage None.
Definition pflag_Uint (name : string) (value : Z) (usage : string) : M unit :=
  pflag_Var (pflag.FUint value) name usage None.
Definition pflag_Uint8 (name : string) (value : Z) (usage : string) : M unit :=
  pflag_Var (pflag.FUint8 value) name usage None.
Definition pflag_Uint16 (name : string) (value : Z) (usage : string) : M unit :=
  pflag_Var (pflag.FUint16 value) name usage None.
Definition pflag_Uint32 (name : string) (value : Z) (usage : string) : M unit :=
  pflag_Var (pflag.FUint32 value) name usage None.
Definition pflag_Bool (name : string) (value : bool) (usage : string) : M unit :=
  pflag_Var (pflag.FBool value) name usage None.
Definition pflag_StringSlice (name : string) (value : list string)
    (usage : string) : M unit :=
  pflag_Var (pflag.FStringSlice value) name usage None.

Definition pflag_Lookup (name : string) : M (option pflag.Flag) :=
  e <- get_ext ;; ret (pflag.Lookup (CommandLine e) name).

Definition string_of_value (v : pflag.FlagValue) : string :=
  match v with
  | pflag.FString s => s
  | _ => ""
  end.

(** [pflag.Parse()]: every argument of the command line sets its flag
    (and the package variable behind it); a parse error ends the process
    with status 2, as [pflag.CommandLine] is an [ExitOnError] flag set. *)
Definition pflag_Parse : M unit :=
  emit EvParse ;;
  e0 <- get_ext ;;
  range (os_Args e0) (fun arg =>
    e <- get_ext ;;
    match pflag.setArg (CommandLine e) (fst arg) (snd arg) with
    | None => exit 2%Z
    | Some (fs, fl) =>
      put_ext (with_CommandLine e fs) ;;
      match pflag.Var fl with
      | Some x => assign_var x (string_of_value (snd arg))
      | None => ret tt
      end
    end).

Definition viper_SetDefault (key : string) (value : GoValue) : M unit :=
  emit (EvSetDefault key value) ;;
  e <- get_ext ;;
  put_ext (with_store e (viper.SetDefault (store e) key value)).

Definition viper_BindEnv (key envName : string) : M (option error) :=
  emit (EvBindEnv key envName) ;;
  e <- get_ext ;;
  put_ext (with_store e (fst (viper.BindEnv (store e) key envName))) ;;
  ret (snd (viper.BindEnv (store e) key envName)).

(** [viper.BindPFlag(key, pflag.Lookup(flagname))]. *)
Definition viper_BindPFlag_Lookup (key flagname : string) : M (option error) :=
  flag <- pflag_Lookup flagname ;;
  emit (EvBindPFlag key flagname) ;;
  e <- get_ext ;;
  put_ext (with_store e (fst (viper.BindPFlag (store e) key flag))) ;;
  ret (snd (viper.BindPFlag (store e) key flag)).

(** A call through the package variable [failFunction]. *)
Definition call_failFunction (err : error) : M unit :=
  g <- get_globals ;;
  emit (EvFailFunction err) ;;
  invoke (failFunction g err).

(** A call through the package variable [warnFunction]. *)
Definition call_warnFunction (message : string) : M unit :=
  g <- get_globals ;;
  emit (EvWarnFunction message) ;;
  invoke (warnFunction g message).

(** [item.Validate(item.Key)]. *)
Definition call_Validate (item : ConfigItem) : M (option error) :=
  emit (EvValidate (Key item)) ;;
  e <- get_ext ;;
  invoke (Validate item (Key item) e).

(* ===================================================================== *)
(** * [setup.go]                                                          *)
(* ===================================================================== *)

(** [func fail(err error) { panic(err) }] *)
Definition fail : ConfigFailFunc := fun err => Panics err.

(** [func warn(message string) { log.Print(message) }] *)
Definition warn : ConfigWarnFunc := fun _ => Returns tt.

(** The package variables as their declarations initialise them. *)
Definition initial_globals : Globals :=
  {| configPath := ""; secretsPath := "";
     failFunction := fail; warnFunction := warn;
     configItems := []; configItemKeysWithNoFlags := ∅ |}.

(** The three assignments that open both setup functions. *)
Definition assign_setup (items : list ConfigItem) (failFunc : ConfigFailFunc)
    (warnFunc : ConfigWarnFunc) : M unit :=
  g <- get_globals ;;
  put_globals {| configPath := configPath g; secretsPath := secretsPath g;
                 failFunction := failFunc; warnFunction := warnFunc;
                 configItems := items;
                 configItemKeysWithNoFlags := configItemKeysWithNoFlags g |}.

(** [configItemKeysWithNoFlags[key] = true] *)
Definition record_no_flag (key : string) : M unit :=
  g <- get_globals ;;
  put_globals {| configPath := configPath g; secretsPath := secretsPath g;
                 failFunction := failFunction g;
                 warnFunction := warnFunction g;
                 configItems := configItems g;
                 configItemKeysWithNoFlags :=
                   <[key := true]> (configItemKeysWithNoFlags g) |}.

(** The body of the loop of [initializeFlags]: the flag name, then the
    chain of type assertions on [item.Default]. *)
Definition initializeFlag (item : ConfigItem) : M unit :=
  let flagname :=
    if decide (FlagName item = "") then Key item else FlagName item in
  match Default item with
  | VString _ => pflag_String flagname "" (Description item)
  | VInt _ => pflag_Int flagname 0%Z (Description item)
  | VInt8 _ => pflag_Int8 flagname 0%Z (Description item)
  | VInt16 _ => pflag_Int16 flagname 0%Z (Description item)
  | VInt32 _ => pflag_Int32 flagname 0%Z (Description item)
  | VUint _ => pflag_Uint flagname 0%Z (Description item)
  | VUint8 _ => pflag_Uint8 flagname 0%Z (Description item)
  | VUint16 _ => pflag_Uint16 flagname 0%Z (Description item)
  | VUint32 _ => pflag_Uint32 flagname 0%Z (Description item)
  | VBool _ => pflag_Bool flagname false (Description item)
  | VStringSlice _ => pflag_StringSlice flagname [] (Description item)
  | _ =>
    record_no_flag (Key item) ;;
    call_warnFunction
      ("unsupported data type for config item " +:+ Key item +:+
       ", cannot initialize command line argument, skipping this key")
  end.

Definition initializeFlags (defaultConfigPath defaultSecretsPath : string)
    : M unit :=
  pflag_StringVar pflag.VarConfigPath "config-path" defaultConfigPath
                  "config file path without file name" ;;
  pflag_StringVar pflag.VarSecretsPath "secrets-path" defaultSecretsPath
                  "secrets file path without file name" ;;
  g <- get_globals ;;
  range (configItems g) initializeFlag.

Definition newline : string := String (ascii_of_nat 10) "".

Definition bindFlag (key flagname : string) : M unit :=
  err <- viper_BindPFlag_Lookup key flagname ;;
  match err with
  | Some err =>
    call_failFunction
      ("Fatal error could not bind configuration flag " +:+ key +:+ ": "
         +:+ err +:+ newline)
  | None => ret tt
  end.

Definition setupFlags : M unit :=
  g <- get_globals ;;
  range (configItems g) (fun item =>
    g' <- get_globals ;;
    match configItemKeysWithNoFlags g' !! Key item with
    | None =>
      let flagname :=
        if decide (FlagName item = "") then Key item else FlagName item in
      bindFlag (Key item) flagname
    | Some _ => ret tt
    end).

Definition setupDefaults : M unit :=
  g <- get_globals ;;
  range (configItems g) (fun item =>
    viper_SetDefault (Key item) (Default item)).

(** The body of [setupEnv], with the operation that it calls for every
    item as an argument.  The loop variable [item] is a copy of the slice
    element; the assignment to [item.EnvName] changes that copy.  What
    the operation returns is assigned to the blank identifier. *)
Definition setupEnv_with (BindEnv : string -> string -> M (option error))
    : M unit :=
  g <- get_globals ;;
  range (configItems g) (fun item =>
    let item :=
      if decide (EnvName item = "")
      then set_EnvName item
             ("CONFIG_" +:+ regexp.ReplaceAllString (Key item) "_")
      else item in
    _ <- BindEnv (Key item) (EnvName item) ;;
    ret tt).

Definition setupEnv : M unit := setupEnv_with viper_BindEnv.

Definition validate : M unit :=
  g <- get_globals ;;
  range (configItems g) (fun item =>
    err <- call_Validate item ;;
    match err with
    | Some err => invoke (fail err)
    | None => ret tt
    end).

Definition SetupDefaultsOnly (items : list ConfigItem)
    (failFunc : ConfigFailFunc) (warnFunc : ConfigWarnFunc) : M unit :=
  assign_setup items failFunc warnFunc ;;
  setupDefaults.

Definition SetupWithOverriddenConfigPath (items : list ConfigItem)
    (failFunc : ConfigFailFunc) (warnFunc : ConfigWarnFunc)
    (defaultConfigPath defaultSecretsPath : string) : M unit :=
  assign_setup items failFunc warnFunc ;;
  initializeFlags defaultConfigPath defaultSecretsPath ;;
  pflag_Parse ;;
  setupDefaults ;;
  setupEnv ;;
  setupFlags.

Definition Setup (items : list ConfigItem) (failFunc : ConfigFailFunc)
    (warnFunc : ConfigWarnFunc) : M unit :=
  SetupWithOverriddenConfigPath items failFunc warnFunc "" "".

(** [Load] calls [performLoad], which is defined in another file of the
    package, and then [validate]. *)
Section Load.

Variable performLoad : M unit.

Definition Load : M unit :=
  performLoad ;;
  validate.

End Load.

(** The exported operations of the package. *)
Inductive Operation : Type :=
| OpSetup (items : list ConfigItem) (failFunc : ConfigFailFunc)
          (warnFunc : ConfigWarnFunc)
| OpSetupDefaultsOnly (items : list ConfigItem) (failFunc : ConfigFailFunc)
                      (warnFunc : ConfigWarnFunc)
| OpSetupWithOverriddenConfigPath (items : list ConfigItem)
    (failFunc : ConfigFailFunc) (warnFunc : ConfigWarnFunc)
    (defaultConfigPath defaultSecretsPath : string)
| OpLoad.

Definition run (performLoad : M unit) (op : Operation) : M unit :=
  match op with
  | OpSetup items failFunc warnFunc => Setup items failFunc warnFunc
  | OpSetupDefaultsOnly items failFunc warnFunc =>
    SetupDefaultsOnly items failFunc warnFunc
  | OpSetupWithOverriddenConfigPath items failFunc warnFunc cp sp =>
    SetupWithOverriddenConfigPath items failFunc warnFunc cp sp
  | OpLoad => Load performLoad
  end.


(* ===================================================================== *)
(** * Vocabulary of the statements                                        *)
(* ===================================================================== *)

(** The events that an operation started in [w] has added when the
    process is in [w']. *)
Definition since (w w' : World) : list Event :=
  drop (length (trace w)) (trace w').

(** ** Characters of a key *)

(** The key split into its characters, as Go reads a string: every
    character with its rune and the bytes that encode it. *)
Fixpoint characters_of (fuel : nat) (s : list ascii) : list (Z * list ascii) :=
  match fuel with
  | O => []
  | S fuel' =>
    match s with
    | [] => []
    | _ :: _ =>
      let d := utf8.DecodeRuneInString s in
      (fst d, take (snd d) s) :: characters_of fuel' (drop (snd d) s)
    end
  end.

Definition characters (s : string) : list (Z * string) :=
  map (fun c => (fst c, string_of_list_ascii (snd c)))
      (characters_of (length (list_ascii_of_string s))
                     (list_ascii_of_string s)).

Definition joined (l : list string) : string := foldr String.append "" l.

(** A character outside [[a-z0-9]] becomes ["_"], any other stays. *)
Definition replace_outside (repl : list ascii) (c : Z * list ascii)
    : list ascii :=
  if regexp.in_a_z_0_9 (fst c) then snd c else repl.

Definition underscore_outside_a_z_0_9 (c : Z * string) : string :=
  if regexp.in_a_z_0_9 (fst c) then snd c else "_".

(** The bytes a derived name is made of after its prefix: lower case
    letters, digits and the underscore. *)
Definition lower_digit_or_underscore (c : ascii) : bool :=
  regexp.in_a_z_0_9 (utf8.byte c) || bool_decide (c = "_"%char).

Definition is_A_Z (r : Z) : bool := ((0x41 <=? r) && (r <=? 0x5A))%Z.

(** For a key of ASCII bytes the characters are the bytes. *)
Definition is_ascii (c : ascii) : bool := (utf8.byte c <? 0x80)%Z.

Definition replace_byte (c : ascii) : ascii :=
  if regexp.in_a_z_0_9 (utf8.byte c) then c else "_"%char.

(** The environment variable name an item is bound to. *)
Definition env_name_of (item : ConfigItem) : string :=
  if decide (EnvName item = "") then derivedEnvName (Key item)
  else EnvName item.

(** ** Flag names and warnings *)

(** The effective flag name of an item: its [FlagName], or its key when
    the [FlagName] is empty. *)
Definition flagname_of (item : ConfigItem) : string :=
  if decide (FlagName item = "") then Key item else FlagName item.

(** The warning for a key that cannot be given a flag. *)
Definition unsupported_message (key : string) : string :=
  "unsupported data type for config item " +:+ key +:+
  ", cannot initialize command line argument, skipping this key".

(** ** Flag kinds *)

(** The flag kind that belongs to the dynamic type of a default, for the
    types that can be given a flag. *)
Definition supported_kind (v : GoValue) : option pflag.FlagKind :=
  match v with
  | VString _ => Some pflag.KString
  | VInt _ => Some pflag.KInt
  | VInt8 _ => Some pflag.KInt8
  | VInt16 _ => Some pflag.KInt16
  | VInt32 _ => Some pflag.KInt32
  | VUint _ => Some pflag.KUint
  | VUint8 _ => Some pflag.KUint8
  | VUint16 _ => Some pflag.KUint16
  | VUint32 _ => Some pflag.KUint32
  | VBool _ => Some pflag.KBool
  | VStringSlice _ => Some pflag.KStringSlice
  | VInt64 _ | VUint64 _ | VNil | VStruct _ _ | VOther _ => None
  end.

(** The neutral value of a kind: empty string, zero, false, empty
    sequence. *)
Definition zero_value (k : pflag.FlagKind) : pflag.FlagValue :=
  match k with
  | pflag.KString => pflag.FString ""
  | pflag.KInt => pflag.FInt 0
  | pflag.KInt8 => pflag.FInt8 0
  | pflag.KInt16 => pflag.FInt16 0
  | pflag.KInt32 => pflag.FInt32 0
  | pflag.KUint => pflag.FUint 0
  | pflag.KUint8 => pflag.FUint8 0
  | pflag.KUint16 => pflag.FUint16 0
  | pflag.KUint32 => pflag.FUint32 0
  | pflag.KBool => pflag.FBool false
  | pflag.KStringSlice => pflag.FStringSlice []
  end.

Definition is_supported (item : ConfigItem) : bool :=
  match supported_kind (Default item) with Some _ => true | None => false end.

(** ** Expected traces *)

Definition path_flag_events (defaultConfigPath defaultSecretsPath : string)
    : list Event :=
  [ EvAddFlag "config-path" (pflag.FString defaultConfigPath)
              "config file path without file name";
    EvAddFlag "secrets-path" (pflag.FString defaultSecretsPath)
              "secrets file path without file name" ].

(** What flag registration does for one item: one flag with the neutral
    value of its kind, or else one warning. *)
Definition flag_event (item : ConfigItem) : Event :=
  match supported_kind (Default item) with
  | Some k => EvAddFlag (flagname_of item) (zero_value k) (Description item)
  | None => EvWarnFunction (unsupported_message (Key item))
  end.

Definition warn_event (item : ConfigItem) : Event :=
  EvWarnFunction (unsupported_message (Key item)).

Definition is_unsupported (item : ConfigItem) : bool :=
  negb (is_supported item).

Definition is_add_flag (ev : Event) : bool :=
  match ev with EvAddFlag _ _ _ => true | _ => false end.

(** The state after the step of [initializeFlags] for an item without a
    supported kind, when the warn callback returns: the key is recorded
    and the warning has been given; the flag set is as before. *)
Definition warned (key : string) (w : World) : World :=
  {| globals :=
       {| configPath := configPath (globals w);
          secretsPath := secretsPath (globals w);
          failFunction := failFunction (globals w);
          warnFunction := warnFunction (globals w);
          configItems := configItems (globals w);
          configItemKeysWithNoFlags :=
            <[key := true]> (configItemKeysWithNoFlags (globals w)) |};
     ext := ext w;
     trace := trace w ++ [EvWarnFunction (unsupported_message key)] |}.

Definition default_event (item : ConfigItem) : Event :=
  EvSetDefault (Key item) (Default item).

Definition env_event (item : ConfigItem) : Event :=
  EvBindEnv (Key item) (env_name_of item).

Definition bind_event (item : ConfigItem) : Event :=
  EvBindPFlag (Key item) (flagname_of item).

(** The items that the flag binding pass does not skip. *)
Definition has_flag (noflags : gmap string bool) (item : ConfigItem) : bool :=
  match noflags !! Key item with None => true | Some _ => false end.

Definition is_store_call (ev : Event) : bool :=
  match ev with
  | EvSetDefault _ _ | EvBindEnv _ _ | EvBindPFlag _ _ => true
  | _ => false
  end.

Definition is_warning (ev : Event) : bool :=
  match ev with EvWarnFunction _ => true | _ => false end.

Definition is_fail_call (ev : Event) : bool :=
  match ev with EvFailFunction _ => true | _ => false end.

Definition is_bind_of (key : string) (ev : Event) : bool :=
  match ev with
  | EvBindPFlag k _ => bool_decide (k = key)
  | _ => false
  end.

Definition is_normal {A} (o : Outcome A) : bool :=
  match o with Normal _ _ => true | _ => false end.

(** ** The validation pass *)

(** The items whose validator the pass calls: all up to and including
    the first one whose validator does not return [nil]. *)
Fixpoint validated (e : Ext) (items : list ConfigItem) : list ConfigItem :=
  match items with
  | [] => []
  | item :: items' =>
    match Validate item (Key item) e with
    | Returns None => item :: validated e items'
    | _ => [item]
    end
  end.

(** The first answer of a validator that is not [nil]. *)
Fixpoint first_failure (e : Ext) (items : list ConfigItem)
    : Call (option error) :=
  match items with
  | [] => Returns None
  | item :: items' =>
    match Validate item (Key item) e with
    | Returns None => first_failure e items'
    | r => r
    end
  end.

Definition logged (w : World) (evs : list Event) : World :=
  {| globals := globals w; ext := ext w; trace := trace w ++ evs |}.

Definition validate_event (item : ConfigItem) : Event :=
  EvValidate (Key item).

(** How the validation pass ends on a registry: it has called the
    validators of [validated]; it returns when none of them objected,
    and otherwise it ends the way the objection dictates, with a panic
    on the error that the validator returned. *)
Definition validation_outcome (w : World) (l : list ConfigItem)
    : Outcome unit :=
  let w' := logged w (map validate_event (validated (ext w) l)) in
  match first_failure (ext w) l with
  | Returns None => Normal tt w'
  | Returns (Some err) => Panic err w'
  | Panics v => Panic v w'
  | Exits code => Exit code w'
  end.

(** ** Layers of the store after a pass *)

Definition defaults_after (items : list ConfigItem) (v : viper.Viper)
    : viper.Viper :=
  foldl (fun v item => viper.SetDefault v (Key item) (Default item)) v items.

Definition env_after (items : list ConfigItem) (v : viper.Viper)
    : viper.Viper :=
  foldl (fun v item => fst (viper.BindEnv v (Key item) (env_name_of item)))
        v items.

Definition flags_after (noflags : gmap string bool) (fs : pflag.FlagSet)
    (items : list ConfigItem) (v : viper.Viper) : viper.Viper :=
  foldl (fun v item =>
           if has_flag noflags item
           then fst (viper.BindPFlag v (Key item)
                                     (pflag.Lookup fs (flagname_of item)))
           else v)
        v items.

(** ** Relations between the state before and after an operation *)

(** An operation is stable for a relation when the state it ends in,
    however it ends, is related to the state it started in. *)
Definition stable {A} (R : World -> World -> Prop) (m : M A) : Prop :=
  forall w, R w (final (m w)).

(** An event that may be added while the keys of [noflags] are recorded:
    it satisfies [Q] and it is not a flag binding for a recorded key. *)
Definition allowed (Q : Event -> Prop) (noflags : gmap string bool)
    (ev : Event) : Prop :=
  Q ev /\ forall k fn, ev = EvBindPFlag k fn -> k ∉ dom noflags.

(** The registry is the same, every recorded key is still recorded and
    has the flag binding it had, and the trace has grown by allowed
    events. *)
Definition kept (Q : Event -> Prop) (w w' : World) : Prop :=
  configItems (globals w') = configItems (globals w)
  /\ dom (configItemKeysWithNoFlags (globals w))
       ⊆ dom (configItemKeysWithNoFlags (globals w'))
  /\ (forall k, k ∈ dom (configItemKeysWithNoFlags (globals w)) ->
        viper.pflags (store (ext w')) !! k = viper.pflags (store (ext w)) !! k)
  /\ exists evs, trace w' = trace w ++ evs
       /\ Forall (allowed Q (configItemKeysWithNoFlags (globals w))) evs.

(** Nothing was called, the package variables other than the two paths
    and the store are the same, and no flag has disappeared. *)
Definition quiet (w w' : World) : Prop :=
  trace w' = trace w
  /\ configItems (globals w') = configItems (globals w)
  /\ configItemKeysWithNoFlags (globals w')
     = configItemKeysWithNoFlags (globals w)
  /\ store (ext w') = store (ext w)
  /\ dom (pflag.formal (CommandLine (ext w)))
       ⊆ dom (pflag.formal (CommandLine (ext w'))).

(** Every registered flag is still registered, unchanged. *)
Definition flags_grow (w w' : World) : Prop :=
  pflag.formal (CommandLine (ext w)) ⊆ pflag.formal (CommandLine (ext w')).

(** Every item that the binding pass does not skip has its flag. *)
Definition flags_present (l : list ConfigItem) (w : World) : Prop :=
  forall item, item ∈ l ->
    has_flag (configItemKeysWithNoFlags (globals w)) item = true ->
    is_Some (pflag.Lookup (CommandLine (ext w)) (flagname_of item)).

(** The state after the three assignments of a setup call. *)
Definition assigned (items : list ConfigItem) (failFunc : ConfigFailFunc)
    (warnFunc : ConfigWarnFunc) (w : World) : World :=
  {| globals :=
       {| configPath := configPath (globals w);
          secretsPath := secretsPath (globals w);
          failFunction := failFunc; warnFunction := warnFunc;
          configItems := items;
          configItemKeysWithNoFlags :=
            configItemKeysWithNoFlags (globals w) |};
     ext := ext w; trace := trace w |}.

(** The calls of a full setup that runs to its end, in their order. *)
Definition setup_events (defaultConfigPath defaultSecretsPath : string)
    (items : list ConfigItem) (noflags : gmap string bool) : list Event :=
  path_flag_events defaultConfigPath defaultSecretsPath
  ++ map flag_event items
  ++ [EvParse]
  ++ map default_event items
  ++ map env_event items
  ++ map bind_event (List.filter (has_flag noflags) items).

Definition any_event (ev : Event) : Prop := True.

Definition no_store_call (ev : Event) : Prop := is_store_call ev = false.

(** The registry after an operation: the one handed over by a setup
    call, the one in place for [Load]. *)
Definition registry_after (op : Operation) (w : World) : list ConfigItem :=
  match op with
  | OpSetup items _ _ => items
  | OpSetupDefaultsOnly items _ _ => items
  | OpSetupWithOverriddenConfigPath items _ _ _ _ => items
  | OpLoad => configItems (globals w)
  end.

Definition is_setup (op : Operation) : bool :=
  match op with OpLoad => false | _ => true end.

(* ===================================================================== *)
(** * Example data                                                        *)
(* ===================================================================== *)

Definition fresh_store : viper.Viper :=
  {| viper.defaults := ∅; viper.env := ∅; viper.pflags := ∅;
     viper.config := ∅ |}.

Definition fresh_ext : Ext :=
  {| CommandLine := {| pflag.name := "service"; pflag.formal := ∅ |};
     store := fresh_store; os_Args := []; os_Environ := ∅ |}.

(** A process that has not called the package yet. *)
Definition fresh_world : World :=
  {| globals := initial_globals; ext := fresh_ext; trace := [] |}.

(** A string of decimal digits as a number. *)
Fixpoint decimal (acc : Z) (s : string) : option Z :=
  match s with
  | EmptyString => Some acc
  | String c s' =>
    if ((0x30 <=? utf8.byte c) && (utf8.byte c <=? 0x39))%Z
    then decimal (10 * acc + (utf8.byte c - 0x30))%Z s'
    else None
  end.

(** A text of more than one byte that begins with the digit 0. *)
Definition leading_zero (s : string) : bool :=
  match s with
  | String c (String _ _) => (utf8.byte c =? 0x30)%Z
  | _ => false
  end.

(** [cast.ToUint]: the number that a resolved value stands for, and 0
    for a value that does not convert: a negative number, [nil], a map,
    a value of another type.  Of the texts, the decimal numbers without
    sign and without a leading zero are read; the other spellings that
    Go accepts are not modelled and count as 0. *)
Definition cast_ToUint (found : viper.Node) : Z :=
  match found with
  | viper.Leaf (VUint n) | viper.Leaf (VUint8 n) | viper.Leaf (VUint16 n)
  | viper.Leaf (VUint32 n) | viper.Leaf (VUint64 n) => n
  | viper.Leaf (VInt n) | viper.Leaf (VInt8 n) | viper.Leaf (VInt16 n)
  | viper.Leaf (VInt32 n) | viper.Leaf (VInt64 n) =>
    if (n <? 0)%Z then 0%Z else n
  | viper.Leaf (VBool b) => if b then 1%Z else 0%Z
  | viper.Leaf (VString s) =>
    match decimal 0 s with
    | Some n => if leading_zero s || (2 ^ 63 <=? n)%Z then 0%Z else n
    | None => 0%Z
    end
  | _ => 0%Z
  end.

(** The validator of the README: the port, read with [viper.GetUint],
    must lie in 1024..65535. *)
Definition checkValidPortNumber : string -> Ext -> Call (option error) :=
  fun key e =>
    let port := cast_ToUint (viper_Get e key) in
    if ((port <? 1024) || (65535 <? port))%Z
    then Returns (Some ("Fatal error: configuration value for key " +:+ key
                          +:+ " is not in range 1024..65535" +:+ newline))
    else Returns None.

Definition server_address : ConfigItem :=
  {| Key := "server.address"; Default := VString "";
     Description :=
       "ip address or hostname to listen on, can be left blank for localhost";
     EnvName := ""; FlagName := "";
     Validate := ConfigNeedsNoValidation |}.

Definition server_port : ConfigItem :=
  {| Key := "server.port"; Default := VUint 8080;
     Description := "port to listen on, defaults to 8080 if not set";
     EnvName := ""; FlagName := "";
     Validate := checkValidPortNumber |}.

Definition some_key : ConfigItem :=
  {| Key := "some.key"; Default := VStruct "TopLevelStructuredConfig" [];
     Description := "example for a config key that contains a whole structure";
     EnvName := ""; FlagName := "";
     Validate := ConfigNeedsNoValidation |}.

(** The item for the list of profiles that the package exports. *)
Definition ConfigItemProfile : ConfigItem :=
  {| Key := "profiles"; Default := VStringSlice [];
     Description :=
       "list of profiles, separate by spaces in environment or command line parameters";
     EnvName := ""; FlagName := "";
     Validate := ConfigNeedsNoValidation |}.

Definition debug_item : ConfigItem :=
  {| Key := "debug"; Default := VBool true;
     Description := "verbose output"; EnvName := ""; FlagName := "verbose";
     Validate := ConfigNeedsNoValidation |}.

Definition Server_Port : ConfigItem :=
  {| Key := "Server.Port"; Default := VUint 8080;
     Description := "port"; EnvName := ""; FlagName := "";
     Validate := ConfigNeedsNoValidation |}.

Definition empty_key_item : ConfigItem :=
  {| Key := ""; Default := VString "x";
     Description := "item without a key"; EnvName := ""; FlagName := "nokey";
     Validate := ConfigNeedsNoValidation |}.

(** [some.key] declared again, this time with a string default. *)
Definition some_key_as_string : ConfigItem :=
  {| Key := "some.key"; Default := VString "text";
     Description := "the same key with a string default";
     EnvName := ""; FlagName := "";
     Validate := ConfigNeedsNoValidation |}.

(** A failure handler that takes note of the error and returns, as a test
    would supply it. *)
Definition noting_fail : ConfigFailFunc := fun _ => Returns tt.

(** A process whose configuration file sets [server.port: 80]. *)
Definition low_port_world : World :=
  {| globals := initial_globals;
     ext := {| CommandLine := {| pflag.name := "service";
                                 pflag.formal := ∅ |};
               store := {| viper.defaults := ∅; viper.env := ∅;
                           viper.pflags := ∅;
                           viper.config :=
                             {[ "server" :=
                                  viper.Dir
                                    {[ "port" := viper.Leaf (VInt 80) ]} ]} |};
               os_Args := []; os_Environ := ∅ |};
     trace := [] |}.

(** The process after [Setup] with the items of the README and the
    noting failure handler, and the error that the port validator
    returns there. *)
Definition port_setup_world : World :=
  final (Setup [server_address; server_port] noting_fail warn low_port_world).

Definition port_error : error :=
  "Fatal error: configuration value for key server.port is not in range 1024..65535"
  +:+ newline.

(** A process in which [some.key] was recorded as a key without flag by
    an earlier setup and whose flag set has been replaced by a new one
    since. *)
Definition recorded_world : World :=
  {| globals := globals (final (Setup [some_key] fail warn fresh_world));
     ext := fresh_ext; trace := [] |}.

(** The key [caf] followed by the two bytes C3 A9, which encode one
    character, and by [.x]. *)
Definition two_byte_key : string :=
  "caf" +:+ String (ascii_of_nat 195) (String (ascii_of_nat 169) ".x").

(** A [performLoad] that finds no file to read. *)
Definition load_nothing : M unit := ret tt.

(** The bytes 0..255, and the part of a rune that its first two bytes
    contribute: the bound on multi-byte runes is checked on these. *)
Definition all_bytes : list ascii := map ascii_of_nat (seq 0 256).

Definition lead (c0 c1 : ascii) : Z :=
  let b0 := utf8.byte c0 in
  let b1 := utf8.byte c1 in
  let sz := Z.land (utf8.first b0) 7 in
  if (sz <=? 2)%Z
  then Z.lor (Z.shiftl (Z.land b0 utf8.mask2) 6) (Z.land b1 utf8.maskx)
  else if (sz <=? 3)%Z
       then Z.lor (Z.shiftl (Z.land b0 utf8.mask3) 12)
                  (Z.shiftl (Z.land b1 utf8.maskx) 6)
       else Z.lor (Z.shiftl (Z.land b0 utf8.mask4) 18)
                  (Z.shiftl (Z.land b1 utf8.maskx) 12).

Definition accepted (c0 c1 : ascii) : bool :=
  let x := utf8.first (utf8.byte c0) in
  negb (utf8.as_ <=? x)%Z &&
  negb ((utf8.byte c1 <? utf8.lo (utf8.acceptRanges (Z.shiftr x 4)))%Z
        || (utf8.hi (utf8.acceptRanges (Z.shiftr x 4)) <? utf8.byte c1)%Z).

(* ===================================================================== *)
(** * Further vocabulary and example data                                 *)
(* ===================================================================== *)

(** The validator of an item accepts the resolved store. *)
Definition accepts (e : Ext) (item : ConfigItem) : Prop :=
  Validate item (Key item) e = Returns None.


(** Parsing may change the value of a flag and mark it as changed; its
    name, usage, registered default and variable stay. *)
Definition same_flag (fl fl' : pflag.Flag) : Prop :=
  pflag.Name fl' = pflag.Name fl
  /\ pflag.Usage fl' = pflag.Usage fl
  /\ pflag.DefValue fl' = pflag.DefValue fl
  /\ pflag.Var fl' = pflag.Var fl.

(** The callbacks are the same and every registered flag is still
    registered as it was. *)
Definition steady (w w' : World) : Prop :=
  failFunction (globals w') = failFunction (globals w)
  /\ warnFunction (globals w') = warnFunction (globals w)
  /\ forall name fl,
       pflag.formal (CommandLine (ext w)) !! name = Some fl ->
       exists fl', pflag.formal (CommandLine (ext w')) !! name = Some fl'
                   /\ same_flag fl fl'.

Definition no_fail_call (ev : Event) : Prop := is_fail_call ev = false.

Definition is_registration (ev : Event) : bool :=
  is_add_flag ev || is_warning ev.

(** The keys of the items that cannot be given a flag. *)
Definition unsupported_keys (items : list ConfigItem) : gset string :=
  list_to_set (map Key (List.filter is_unsupported items)).

(** The state in which a full setup panics when [config-path] is already
    registered: the registry and the callbacks have been assigned, the
    new default has been written to [configPath] and so to the flags
    declared on it, and the registration has been attempted. *)
Definition config_path_taken (items : list ConfigItem)
    (failFunc : ConfigFailFunc) (warnFunc : ConfigWarnFunc) (cp : string)
    (w : World) : World :=
  {| globals :=
       {| configPath := cp;
          secretsPath := secretsPath (globals w);
          failFunction := failFunc; warnFunction := warnFunc;
          configItems := items;
          configItemKeysWithNoFlags :=
            configItemKeysWithNoFlags (globals w) |};
     ext := with_CommandLine (ext w)
              (pflag.store_var (CommandLine (ext w)) pflag.VarConfigPath
                               (pflag.FString cp));
     trace := trace w ++ [EvAddFlag "config-path" (pflag.FString cp)
                            "config file path without file name"] |}.

Definition config_path_flag (cp : string) : pflag.Flag :=
  pflag.newFlag "config-path" (pflag.FString cp)
                "config file path without file name"
                (Some pflag.VarConfigPath).

Definition secrets_path_flag (sp : string) : pflag.Flag :=
  pflag.newFlag "secrets-path" (pflag.FString sp)
                "secrets file path without file name"
                (Some pflag.VarSecretsPath).


(** A second item for the key [server.address]. *)
Definition server_address_again : ConfigItem :=
  {| Key := "server.address"; Default := VString "localhost";
     Description := "declared twice"; EnvName := ""; FlagName := "";
     Validate := ConfigNeedsNoValidation |}.

(** ** Keys in the nested maps of the store *)

(** Two paths of which one runs through the other: one is a prefix of
    the other, or they are the same. *)
Definition related (p q : list string) : Prop :=
  p `prefix_of` q \/ q `prefix_of` p.

#[global] Instance related_dec : RelDecision related.
Proof. intros p q. unfold related. apply _. Defined.

(** A key of ASCII bytes. *)
Definition ascii_key (item : ConfigItem) : Prop :=
  forallb is_ascii (list_ascii_of_string (Key item)) = true.




(** [setupEnv] in which every binding returns the answer that [answer]
    gives for it, in place of the answer of the store. *)
Definition viper_BindEnv_answering (answer : string -> string -> option error)
    (key envName : string) : M (option error) :=
  _ <- viper_BindEnv key envName ;;
  ret (answer key envName).

Local Open Scope go_scope.

(* ===================================================================== *)
(** * Runes and the replacement loop *)
(* ===================================================================== *)

Lemma lor_ge_l (a b : Z) : (0 <= a)%Z -> (0 <= b)%Z -> (a <= Z.lor a b)%Z.
Proof.
  intros Ha Hb.
  pose proof (Z.add_lor_land a b) as H.
  pose proof (Z.sub_land_same_l b a) as H2.
  assert (0 <= Z.land b (Z.lnot a))%Z.
  { apply Z.land_nonneg. left. done. }
  rewrite (Z.land_comm b a) in H2. lia.
Qed.

Lemma all_bytes_complete (c : ascii) : In c all_bytes.
Proof.
  unfold all_bytes. rewrite <- (ascii_nat_embedding c).
  apply in_map. apply in_seq. pose proof (nat_ascii_bounded c). lia.
Qed.

Lemma DecodeRune_width (s : list ascii) :
  s <> [] ->
  (1 <= snd (utf8.DecodeRuneInString s) <= length s)%nat.
Proof.
  intros Hs. unfold utf8.DecodeRuneInString.
  repeat case_match; simpl in *; subst; simpl; try lia; try congruence.
Qed.


Lemma lead_check :
  forallb (fun c0 => forallb (fun c1 =>
     implb (accepted c0 c1) (0x80 <=? lead c0 c1)%Z) all_bytes) all_bytes = true.
Proof. vm_compute. reflexivity. Qed.

Lemma lead_bound (c0 c1 : ascii) :
  accepted c0 c1 = true -> (0x80 <= lead c0 c1)%Z.
Proof.
  intros Hacc. pose proof lead_check as H.
  rewrite forallb_forall in H. specialize (H c0 (all_bytes_complete c0)).
  rewrite forallb_forall in H. specialize (H c1 (all_bytes_complete c1)).
  rewrite Hacc in H. simpl in H. lia.
Qed.

Lemma byte_nonneg (c : ascii) : (0 <= utf8.byte c)%Z.
Proof. unfold utf8.byte. lia. Qed.

Lemma part_nonneg (c : ascii) (m k : Z) :
  (0 <= Z.shiftl (Z.land (utf8.byte c) m) k)%Z.
Proof.
  apply Z.shiftl_nonneg. apply Z.land_nonneg. left. apply byte_nonneg.
Qed.

Lemma land_byte_nonneg (c : ascii) (m : Z) : (0 <= Z.land (utf8.byte c) m)%Z.
Proof. apply Z.land_nonneg. left. apply byte_nonneg. Qed.

Lemma RuneError_outside : regexp.in_a_z_0_9 utf8.RuneError = false.
Proof. reflexivity. Qed.

Lemma outside_of_ge (r : Z) : (0x80 <= r)%Z -> regexp.in_a_z_0_9 r = false.
Proof. intros H. unfold regexp.in_a_z_0_9. lia. Qed.

Lemma DecodeRune_kept (s : list ascii) :
  regexp.in_a_z_0_9 (fst (utf8.DecodeRuneInString s)) = true ->
  exists c t, s = c :: t /\ utf8.DecodeRuneInString s = (utf8.byte c, 1%nat).
Proof.
  unfold utf8.DecodeRuneInString.
  destruct s as [|c0 t0]; [ discriminate |].
  cbv zeta.
  destruct (utf8.as_ <=? utf8.first (utf8.byte c0))%Z eqn:Has.
  { destruct (Z.testbit (utf8.first (utf8.byte c0)) 0); simpl; [ discriminate |].
    intros _. eauto. }
  destruct (Z.of_nat (length (c0 :: t0)) <? Z.land (utf8.first (utf8.byte c0)) 7)%Z;
    [ discriminate |].
  destruct t0 as [|c1 t1]; [ discriminate |].
  destruct ((utf8.byte c1 <? utf8.lo (utf8.acceptRanges (Z.shiftr (utf8.first (utf8.byte c0)) 4)))%Z
            || (utf8.hi (utf8.acceptRanges (Z.shiftr (utf8.first (utf8.byte c0)) 4)) <? utf8.byte c1)%Z)
    eqn:Hacc; [ discriminate |].
  assert (Hlead : (0x80 <= lead c0 c1)%Z).
  { apply lead_bound. unfold accepted. cbv zeta. rewrite Has, Hacc. reflexivity. }
  unfold lead in Hlead. cbv zeta in Hlead.
  destruct (Z.land (utf8.first (utf8.byte c0)) 7 <=? 2)%Z.
  { simpl. intros H. rewrite outside_of_ge in H; [ discriminate | exact Hlead ]. }
  destruct t1 as [|c2 t2]; [ discriminate |].
  destruct ((utf8.byte c2 <? utf8.locb)%Z || (utf8.hicb <? utf8.byte c2)%Z); [ discriminate |].
  destruct (Z.land (utf8.first (utf8.byte c0)) 7 <=? 3)%Z.
  { simpl. intros H. rewrite outside_of_ge in H; [ discriminate |].
    etransitivity; [ exact Hlead |].
    apply lor_ge_l; [| apply land_byte_nonneg ].
    apply Z.lor_nonneg. split; apply part_nonneg. }
  destruct t2 as [|c3 t3]; [ discriminate |].
  destruct ((utf8.byte c3 <? utf8.locb)%Z || (utf8.hicb <? utf8.byte c3)%Z); [ discriminate |].
  simpl. intros H. rewrite outside_of_ge in H; [ discriminate |].
  etransitivity; [ exact Hlead |].
  etransitivity; [ apply lor_ge_l; [| apply (part_nonneg c2 utf8.maskx 6) ] |].
  { apply Z.lor_nonneg. split; apply part_nonneg. }
  apply lor_ge_l; [| apply land_byte_nonneg ].
  apply Z.lor_nonneg. split; [| apply part_nonneg ].
  apply Z.lor_nonneg. split; apply part_nonneg.
Qed.


Lemma replaceAll_characters (fuel : nat) (src repl : list ascii) (pos : nat)
    (buf : list ascii) :
  (length src - pos <= fuel)%nat ->
  regexp.replaceAll fuel src repl pos buf =
  (buf ++ concat (map (replace_outside repl)
                      (characters_of fuel (drop pos src))))%list.
Proof.
  revert pos buf. induction fuel as [|fuel IH]; intros pos buf Hlen.
  - simpl. rewrite app_nil_r. reflexivity.
  - cbn [regexp.replaceAll characters_of].
    destruct (Nat.ltb_spec pos (length src)) as [Hlt|Hge].
    + destruct (drop pos src) as [|c t] eqn:Hdrop.
      { apply (f_equal length) in Hdrop. rewrite length_drop in Hdrop.
        simpl in Hdrop. lia. }
      pose proof (DecodeRune_width (c :: t) ltac:(discriminate)) as Hw.
      destruct (utf8.DecodeRuneInString (c :: t)) as [r w] eqn:Hd.
      cbv zeta. cbn [fst snd map concat] in *.
      assert (Hnext : drop (pos + w) src = drop w (c :: t)).
      { rewrite <- Hdrop. rewrite drop_drop. reflexivity. }
      unfold regexp.re_matches, replace_outside. cbn [fst snd].
      destruct (regexp.in_a_z_0_9 r); cbn [negb];
        rewrite IH by lia; rewrite Hnext, <- app_assoc; reflexivity.
    + rewrite drop_ge by lia. simpl. rewrite app_nil_r. reflexivity.
Qed.

Lemma string_of_list_ascii_app (a b : list ascii) :
  string_of_list_ascii (a ++ b) = string_of_list_ascii a +:+ string_of_list_ascii b.
Proof. induction a as [|c a IH]; simpl; [ reflexivity | rewrite IH; reflexivity ]. Qed.

Lemma string_of_list_ascii_concat (l : list (list ascii)) :
  string_of_list_ascii (concat l) = joined (map string_of_list_ascii l).
Proof.
  induction l as [|x l IH]; simpl; [ reflexivity |].
  rewrite string_of_list_ascii_app, IH. reflexivity.
Qed.


Lemma ReplaceAllString_characters (key : string) :
  regexp.ReplaceAllString key "_" =
  joined (map underscore_outside_a_z_0_9 (characters key)).
Proof.
  unfold regexp.ReplaceAllString, characters.
  rewrite replaceAll_characters by lia.
  rewrite drop_0, app_nil_l, string_of_list_ascii_concat.
  rewrite !map_map. f_equal. apply map_ext. intros [r bs].
  unfold replace_outside, underscore_outside_a_z_0_9. cbn [fst snd].
  destruct (regexp.in_a_z_0_9 r); reflexivity.
Qed.

(* ===================================================================== *)
(** * The default and environment passes *)
(* ===================================================================== *)

Lemma logged_nil (w : World) : logged w [] = w.
Proof. destruct w. unfold logged. simpl. rewrite app_nil_r. reflexivity. Qed.

Lemma with_store_id (e : Ext) : with_store e (store e) = e.
Proof. destruct e. reflexivity. Qed.

Lemma env_item_Key (item : ConfigItem) :
  Key (if decide (EnvName item = "")
       then set_EnvName item ("CONFIG_" +:+ regexp.ReplaceAllString (Key item) "_")
       else item) = Key item.
Proof. destruct (decide (EnvName item = "")); reflexivity. Qed.

Lemma env_item_EnvName (item : ConfigItem) :
  EnvName (if decide (EnvName item = "")
           then set_EnvName item ("CONFIG_" +:+ regexp.ReplaceAllString (Key item) "_")
           else item) = env_name_of item.
Proof. unfold env_name_of. destruct (decide (EnvName item = "")); reflexivity. Qed.

Lemma setupDefaults_range (l : list ConfigItem) (w : World) :
  range l (fun item => viper_SetDefault (Key item) (Default item)) w =
  Normal tt {| globals := globals w;
               ext := with_store (ext w) (defaults_after l (store (ext w)));
               trace := trace w ++ map default_event l |}.
Proof.
  revert w. induction l as [|item l IH]; intros w.
  - simpl. unfold ret. rewrite with_store_id, app_nil_r. destruct w; reflexivity.
  - cbn [range]. unfold bind at 1.
    unfold viper_SetDefault, bind, emit, get_ext, put_ext. cbn.
    rewrite IH. cbn. rewrite <- app_assoc. reflexivity.
Qed.

Lemma setupDefaults_run (w : World) :
  setupDefaults w =
  Normal tt {| globals := globals w;
               ext := with_store (ext w)
                        (defaults_after (configItems (globals w)) (store (ext w)));
               trace := trace w ++ map default_event (configItems (globals w)) |}.
Proof. unfold setupDefaults, bind, get_globals. apply setupDefaults_range. Qed.

Lemma setupEnv_range (l : list ConfigItem) (w : World) :
  range l (fun item =>
    let item :=
      if decide (EnvName item = "")
      then set_EnvName item
             ("CONFIG_" +:+ regexp.ReplaceAllString (Key item) "_")
      else item in
    _ <- viper_BindEnv (Key item) (EnvName item) ;;
    ret tt) w =
  Normal tt {| globals := globals w;
               ext := with_store (ext w) (env_after l (store (ext w)));
               trace := trace w ++ map env_event l |}.
Proof.
  revert w. induction l as [|item l IH]; intros w.
  - simpl. unfold ret. rewrite with_store_id, app_nil_r. destruct w; reflexivity.
  - cbn [range]. unfold bind at 1. cbv zeta.
    rewrite env_item_Key, env_item_EnvName.
    unfold viper_BindEnv, bind, emit, get_ext, put_ext, ret. cbn.
    rewrite IH. cbn. rewrite <- app_assoc. reflexivity.
Qed.

Lemma setupEnv_run (w : World) :
  setupEnv w =
  Normal tt {| globals := globals w;
               ext := with_store (ext w)
                        (env_after (configItems (globals w)) (store (ext w)));
               trace := trace w ++ map env_event (configItems (globals w)) |}.
Proof. unfold setupEnv, bind, get_globals. apply setupEnv_range. Qed.

(* ===================================================================== *)
(** * Stability of relations *)
(* ===================================================================== *)

Section Stable.
Context {R : World -> World -> Prop} `{!PreOrder R}.

Lemma stable_ret {A} (a : A) : stable R (ret a).
Proof. intros w. reflexivity. Qed.

Lemma stable_bind {A B} (m : M A) (k : A -> M B) :
  stable R m -> (forall a, stable R (k a)) -> stable R (bind m k).
Proof.
  intros Hm Hk w. unfold bind. specialize (Hm w).
  destruct (m w) as [a w'|v w'|c w']; simpl in *; try done.
  etransitivity; [ exact Hm | apply Hk ].
Qed.

Lemma stable_range {A} (l : list A) (body : A -> M unit) :
  (forall x, x ∈ l -> stable R (body x)) -> stable R (range l body).
Proof.
  induction l as [|x l IH]; intros Hbody; cbn [range].
  - apply stable_ret.
  - apply stable_bind; [ apply Hbody; left |].
    intros _. apply IH. intros y Hy. apply Hbody. right. done.
Qed.

Lemma stable_get_globals : stable R get_globals.
Proof. intros w. reflexivity. Qed.

Lemma stable_get_ext : stable R get_ext.
Proof. intros w. reflexivity. Qed.

Lemma stable_with_ext {B} (k : Ext -> M B) :
  (forall w, R w (final (k (ext w) w))) -> stable R (bind get_ext k).
Proof. intros Hk w. apply Hk. Qed.

Lemma stable_with_globals {B} (k : Globals -> M B) :
  (forall w, R w (final (k (globals w) w))) -> stable R (bind get_globals k).
Proof. intros Hk w. apply Hk. Qed.

Lemma stable_invoke {A} (c : Call A) : stable R (invoke c).
Proof. intros w. unfold invoke. destruct c; reflexivity. Qed.

Lemma stable_panic {A} (v : string) : stable R (@panic A v).
Proof. intros w. reflexivity. Qed.

Lemma stable_exit {A} (c : Z) : stable R (@exit A c).
Proof. intros w. reflexivity. Qed.
End Stable.

Section Kept.
Variable Q : Event -> Prop.

Lemma kept_refl (w : World) : kept Q w w.
Proof.
  split; [ done |]. split; [ done |]. split; [ done |].
  exists []. rewrite app_nil_r. split; [ done | constructor ].
Qed.


(** A step that emits nothing and leaves the registry, the bindings of
    flags and at least the recorded keys in place. *)
Lemma kept_silent (w w' : World) :
  configItems (globals w') = configItems (globals w) ->
  dom (configItemKeysWithNoFlags (globals w))
    ⊆ dom (configItemKeysWithNoFlags (globals w')) ->
  viper.pflags (store (ext w')) = viper.pflags (store (ext w)) ->
  trace w' = trace w ->
  kept Q w w'.
Proof.
  intros Hi Hd Hp Ht. split; [ done |]. split; [ done |].
  split; [ intros k _; rewrite Hp; done |].
  exists []. rewrite app_nil_r. split; [ done | constructor ].
Qed.

(** A step that emits one event which is not a flag binding. *)
Lemma kept_one (w w' : World) (ev : Event) :
  Q ev -> (forall k fn, ev <> EvBindPFlag k fn) ->
  configItems (globals w') = configItems (globals w) ->
  dom (configItemKeysWithNoFlags (globals w))
    ⊆ dom (configItemKeysWithNoFlags (globals w')) ->
  viper.pflags (store (ext w')) = viper.pflags (store (ext w)) ->
  trace w' = trace w ++ [ev] ->
  kept Q w w'.
Proof.
  intros HQ Hne Hi Hd Hp Ht. split; [ done |]. split; [ done |].
  split; [ intros k _; rewrite Hp; done |].
  exists [ev]. split; [ done |]. constructor; [| constructor ].
  split; [ done |]. intros k fn Hev. destruct (Hne k fn Hev).
Qed.

Lemma kept_trans (w1 w2 w3 : World) : kept Q w1 w2 -> kept Q w2 w3 -> kept Q w1 w3.
Proof.
  intros (Hi1 & Hd1 & Hp1 & evs1 & Ht1 & Ha1) (Hi2 & Hd2 & Hp2 & evs2 & Ht2 & Ha2).
  split; [ congruence |]. split; [ set_solver |]. split.
  - intros k Hk. rewrite Hp2 by set_solver. apply Hp1, Hk.
  - exists (evs1 ++ evs2). split; [ rewrite Ht2, Ht1, app_assoc; done |].
    apply Forall_app. split; [ done |].
    eapply Forall_impl; [ exact Ha2 |].
    intros ev [HQ Hb]. split; [ done |]. intros k fn Hev Hk.
    apply (Hb k fn Hev). set_solver.
Qed.

#[global] Instance kept_preorder : PreOrder (kept Q).
Proof. split; [ exact kept_refl | exact kept_trans ]. Qed.

Lemma stable_emit (ev : Event) :
  Q ev -> (forall k fn, ev <> EvBindPFlag k fn) -> stable (kept Q) (emit ev).
Proof. intros HQ Hne w. by apply (kept_one _ _ ev). Qed.

Lemma stable_assign_var (x : pflag.PackageVar) (s : string) :
  stable (kept Q) (assign_var x s).
Proof. intros w. destruct x; by apply kept_silent. Qed.

Lemma stable_record_no_flag (key : string) : stable (kept Q) (record_no_flag key).
Proof.
  intros w. apply kept_silent; try done.
  cbn. rewrite dom_insert_L. set_solver.
Qed.

Lemma stable_pflag_Var (value : pflag.FlagValue) (name usage : string)
    (var : option pflag.PackageVar) :
  Q (EvAddFlag name value usage) ->
  stable (kept Q) (pflag_Var value name usage var).
Proof.
  intros HQ w. unfold pflag_Var, bind, emit, get_ext. cbn.
  destruct (pflag.AddFlag _ _); by apply (kept_one _ _ (EvAddFlag name value usage)).
Qed.

Lemma stable_call_warnFunction (message : string) :
  Q (EvWarnFunction message) -> stable (kept Q) (call_warnFunction message).
Proof.
  intros HQ w. unfold call_warnFunction, bind, get_globals, emit, invoke. cbn.
  destruct (warnFunction _ _); by apply (kept_one _ _ (EvWarnFunction message)).
Qed.

Lemma stable_call_failFunction (err : error) :
  Q (EvFailFunction err) -> stable (kept Q) (call_failFunction err).
Proof.
  intros HQ w. unfold call_failFunction, bind, get_globals, emit, invoke. cbn.
  destruct (failFunction _ _); by apply (kept_one _ _ (EvFailFunction err)).
Qed.

Lemma stable_call_Validate (item : ConfigItem) :
  Q (EvValidate (Key item)) -> stable (kept Q) (call_Validate item).
Proof.
  intros HQ w. unfold call_Validate, bind, get_ext, emit, invoke. cbn.
  destruct (Validate _ _ _); by apply (kept_one _ _ (EvValidate (Key item))).
Qed.

Lemma stable_viper_SetDefault (key : string) (value : GoValue) :
  Q (EvSetDefault key value) -> stable (kept Q) (viper_SetDefault key value).
Proof. intros HQ w. by apply (kept_one _ _ (EvSetDefault key value)). Qed.

Lemma stable_viper_BindEnv (key envName : string) :
  Q (EvBindEnv key envName) -> stable (kept Q) (viper_BindEnv key envName).
Proof.
  intros HQ w. by apply (kept_one _ _ (EvBindEnv key envName)).
Qed.

Lemma stable_viper_BindPFlag_Lookup (key flagname : string) :
  Q (EvBindPFlag key flagname) ->
  forall w, key ∉ dom (configItemKeysWithNoFlags (globals w)) ->
  kept Q w (final (viper_BindPFlag_Lookup key flagname w)).
Proof.
  intros HQ w Hk. split; [ done |]. split; [ done |]. split.
  - intros k Hin. cbn. unfold viper.BindPFlag.
    destruct (pflag.Lookup _ _); cbn; [| done ].
    apply lookup_insert_ne. intros ->. done.
  - exists [EvBindPFlag key flagname]. split; [ done |].
    constructor; [| constructor ]. split; [ done |].
    intros k fn [= -> ->]. done.
Qed.

Lemma stable_pflag_StringVar (x : pflag.PackageVar) (name value usage : string) :
  Q (EvAddFlag name (pflag.FString value) usage) ->
  stable (kept Q) (pflag_StringVar x name value usage).
Proof.
  intros HQ. apply stable_bind; [ apply stable_assign_var |].
  intros _. by apply stable_pflag_Var.
Qed.

Lemma stable_pflag_Parse :
  Q EvParse -> stable (kept Q) pflag_Parse.
Proof.
  intros HQ. apply stable_bind; [ by apply stable_emit |]. intros _.
  apply stable_bind; [ apply stable_get_ext |]. intros e0.
  apply stable_range. intros arg _.
  apply stable_with_ext. intros w.
  destruct (pflag.setArg _ _ _) as [[fs fl]|]; [| apply stable_exit ].
  unfold bind, put_ext. cbn.
  destruct (pflag.Var fl) as [[]|]; by apply kept_silent.
Qed.

Lemma stable_initializeFlag (item : ConfigItem) :
  (forall name value usage, Q (EvAddFlag name value usage)) ->
  (forall message, Q (EvWarnFunction message)) ->
  stable (kept Q) (initializeFlag item).
Proof.
  intros HQ1 HQ2. unfold initializeFlag.
  destruct (Default item); try (by apply stable_pflag_Var);
    (apply stable_bind; [ apply stable_record_no_flag |];
     intros _; by apply stable_call_warnFunction).
Qed.

Lemma stable_initializeFlags (cp sp : string) :
  (forall name value usage, Q (EvAddFlag name value usage)) ->
  (forall message, Q (EvWarnFunction message)) ->
  stable (kept Q) (initializeFlags cp sp).
Proof.
  intros HQ1 HQ2. unfold initializeFlags.
  apply stable_bind; [ by apply stable_pflag_StringVar |]. intros _.
  apply stable_bind; [ by apply stable_pflag_StringVar |]. intros _.
  apply stable_bind; [ apply stable_get_globals |]. intros g.
  apply stable_range. intros item _. by apply stable_initializeFlag.
Qed.

Lemma stable_setupDefaults :
  (forall key value, Q (EvSetDefault key value)) ->
  stable (kept Q) setupDefaults.
Proof.
  intros HQ. apply stable_bind; [ apply stable_get_globals |]. intros g.
  apply stable_range. intros item _. by apply stable_viper_SetDefault.
Qed.

Lemma stable_setupEnv :
  (forall key name, Q (EvBindEnv key name)) ->
  stable (kept Q) setupEnv.
Proof.
  intros HQ. apply stable_bind; [ apply stable_get_globals |]. intros g.
  apply stable_range. intros item _. cbv zeta.
  apply stable_bind; [ by apply stable_viper_BindEnv |].
  intros _. apply stable_ret.
Qed.

Lemma stable_bindFlag (key flagname : string) :
  Q (EvBindPFlag key flagname) ->
  (forall err, Q (EvFailFunction err)) ->
  forall w, key ∉ dom (configItemKeysWithNoFlags (globals w)) ->
  kept Q w (final (bindFlag key flagname w)).
Proof.
  intros HQ1 HQ2 w Hk. unfold bindFlag, bind.
  pose proof (stable_viper_BindPFlag_Lookup key flagname HQ1 w Hk) as H.
  destruct (viper_BindPFlag_Lookup key flagname w) as [[err|] w'|v w'|c w'];
    cbn in *; try done.
  eapply kept_trans; [ exact H |]. by apply stable_call_failFunction.
Qed.

Lemma stable_setupFlags :
  (forall key flagname, Q (EvBindPFlag key flagname)) ->
  (forall err, Q (EvFailFunction err)) ->
  stable (kept Q) setupFlags.
Proof.
  intros HQ1 HQ2. apply stable_bind; [ apply stable_get_globals |]. intros g.
  apply stable_range. intros item _ w. unfold bind, get_globals.
  destruct (configItemKeysWithNoFlags (globals w) !! Key item) eqn:Hk.
  - reflexivity.
  - apply stable_bindFlag; try done. by apply not_elem_of_dom.
Qed.

Lemma stable_validate :
  (forall key, Q (EvValidate key)) -> stable (kept Q) validate.
Proof.
  intros HQ. apply stable_bind; [ apply stable_get_globals |]. intros g.
  apply stable_range. intros item _.
  apply stable_bind; [ by apply stable_call_Validate |].
  intros [err|]; [ apply stable_invoke | apply stable_ret ].
Qed.
End Kept.

(* ===================================================================== *)
(** * Flag registration and parsing *)
(* ===================================================================== *)

(** ** Normal returns *)

Lemma bind_Normal {A B} (m : M A) (k : A -> M B) (w w' : World) (b : B) :
  bind m k w = Normal b w' ->
  exists a w1, m w = Normal a w1 /\ k a w1 = Normal b w'.
Proof.
  unfold bind. destruct (m w) as [a w1|v w1|c w1]; try discriminate.
  intros H. eauto.
Qed.

Lemma range_Normal_cons {A} (x : A) (l : list A) (body : A -> M unit)
    (w w' : World) :
  range (x :: l) body w = Normal tt w' ->
  exists w1, body x w = Normal tt w1 /\ range l body w1 = Normal tt w'.
Proof.
  cbn [range]. intros H. apply bind_Normal in H as ([] & w1 & H1 & H2). eauto.
Qed.

Lemma final_Normal {A} (o : Outcome A) (a : A) (w : World) :
  o = Normal a w -> final o = w.
Proof. intros ->. reflexivity. Qed.

Lemma since_app (w w' : World) (evs : list Event) :
  trace w' = trace w ++ evs -> since w w' = evs.
Proof. intros H. unfold since. rewrite H. apply drop_app_length. Qed.

(** ** The two further relations *)

#[global] Instance quiet_preorder : PreOrder quiet.
Proof.
  split.
  - intros w. repeat split; done.
  - intros w1 w2 w3 (Ht1 & Hi1 & Hn1 & Hs1 & Hd1) (Ht2 & Hi2 & Hn2 & Hs2 & Hd2).
    repeat split; try congruence. set_solver.
Qed.

#[global] Instance flags_grow_preorder : PreOrder flags_grow.
Proof.
  split.
  - intros w. unfold flags_grow. done.
  - intros w1 w2 w3 H1 H2. unfold flags_grow in *. by etransitivity.
Qed.

Lemma assign_var_run (x : pflag.PackageVar) (s : string) (w : World) :
  assign_var x s w
  = Normal tt
      {| globals := with_var (globals w) x s;
         ext := with_CommandLine (ext w)
                  (pflag.store_var (CommandLine (ext w)) x (pflag.FString s));
         trace := trace w |}.
Proof. reflexivity. Qed.

Lemma with_var_configItems (g : Globals) (x : pflag.PackageVar) (s : string) :
  configItems (with_var g x s) = configItems g
  /\ configItemKeysWithNoFlags (with_var g x s) = configItemKeysWithNoFlags g
  /\ failFunction (with_var g x s) = failFunction g
  /\ warnFunction (with_var g x s) = warnFunction g.
Proof. by destruct x. Qed.

Lemma quiet_assign_var (x : pflag.PackageVar) (s : string) :
  stable quiet (assign_var x s).
Proof.
  intros w. rewrite assign_var_run. cbn [final].
  destruct (with_var_configItems (globals w) x s) as (Hi & Hn & _).
  split; [ done |]. split; [ exact Hi |]. split; [ exact Hn |].
  split; [ done |]. cbn. by rewrite dom_fmap_L.
Qed.

(** The loop of [pflag.Parse] calls nothing and removes no flag. *)
Lemma quiet_Parse_loop (args : list (string * pflag.FlagValue)) :
  stable quiet (range args (fun arg =>
    e <- get_ext ;;
    match pflag.setArg (CommandLine e) (fst arg) (snd arg) with
    | None => exit 2%Z
    | Some (fs, fl) =>
      put_ext (with_CommandLine e fs) ;;
      match pflag.Var fl with
      | Some x => assign_var x (string_of_value (snd arg))
      | None => ret tt
      end
    end)).
Proof.
  apply stable_range. intros arg _. apply stable_with_ext. intros w.
  unfold pflag.setArg.
  destruct (pflag.formal (CommandLine (ext w)) !! fst arg) as [fl|] eqn:Hfl;
    [| reflexivity ].
  destruct (pflag.kind_eqb _ _); [| reflexivity ].
  unfold bind at 1, put_ext. cbn [final].
  assert (Hdom : dom (pflag.formal (CommandLine (ext w)))
                 ⊆ dom (<[fst arg := pflag.set fl (snd arg)]>
                          (pflag.formal (CommandLine (ext w))))).
  { rewrite dom_insert_L. set_solver. }
  match goal with
  | |- quiet _ (final (_ ?w1)) =>
    assert (Hq : quiet w w1) by (split; [ done |]; split; [ done |];
                                 split; [ done |]; split; [ done |]; exact Hdom);
    cbn [pflag.Var pflag.set];
    destruct (pflag.Var fl) as [x|];
      [ etransitivity; [ exact Hq | apply quiet_assign_var ] | exact Hq ]
  end.
Qed.

Lemma pflag_Parse_quiet (w : World) :
  quiet (logged w [EvParse]) (final (pflag_Parse w)).
Proof.
  unfold pflag_Parse, bind at 1, emit. cbn.
  unfold bind at 1, get_ext. cbn. apply quiet_Parse_loop.
Qed.

(** ** Flag registration *)

Lemma flags_grow_pflag_Var (value : pflag.FlagValue) (name usage : string)
    (var : option pflag.PackageVar) :
  stable flags_grow (pflag_Var value name usage var).
Proof.
  intros w. unfold pflag_Var, bind, emit, get_ext, pflag.AddFlag. cbn.
  destruct (pflag.formal (CommandLine (ext w)) !! name) eqn:Hname;
    unfold flags_grow; cbn.
  - done.
  - by apply insert_subseteq.
Qed.

Lemma flags_grow_initializeFlag (item : ConfigItem) :
  stable flags_grow (initializeFlag item).
Proof.
  unfold initializeFlag.
  destruct (Default item); try apply flags_grow_pflag_Var;
    intros w; unfold bind, record_no_flag, call_warnFunction, get_globals,
      put_globals, emit, invoke; cbn;
    destruct (warnFunction _ _); unfold flags_grow; done.
Qed.

Lemma pflag_Var_Normal (value : pflag.FlagValue) (name usage : string)
    (var : option pflag.PackageVar) (w w' : World) :
  pflag_Var value name usage var w = Normal tt w' ->
  pflag.formal (CommandLine (ext w)) !! name = None
  /\ w' = {| globals := globals w;
             ext := with_CommandLine (ext w)
                      {| pflag.name := pflag.name (CommandLine (ext w));
                         pflag.formal :=
                           <[name := pflag.newFlag name value usage var]>
                             (pflag.formal (CommandLine (ext w))) |};
             trace := trace w ++ [EvAddFlag name value usage] |}.
Proof.
  unfold pflag_Var, bind, emit, get_ext, pflag.AddFlag, put_ext, panic. cbn.
  destruct (pflag.formal (CommandLine (ext w)) !! name); [ discriminate |].
  intros [= <-]. done.
Qed.

Lemma initializeFlag_Normal (item : ConfigItem) (w w' : World) :
  initializeFlag item w = Normal tt w' ->
  trace w' = trace w ++ [flag_event item]
  /\ configItems (globals w') = configItems (globals w)
  /\ store (ext w') = store (ext w)
  /\ match supported_kind (Default item) with
     | Some k =>
       pflag.formal (CommandLine (ext w')) !! flagname_of item
       = Some (pflag.newFlag (flagname_of item) (zero_value k)
                             (Description item) None)
     | None => Key item ∈ dom (configItemKeysWithNoFlags (globals w'))
     end.
Proof.
  unfold initializeFlag, flag_event.
  destruct (Default item); cbn [supported_kind zero_value];
    try (intros H; apply pflag_Var_Normal in H as [_ ->]; cbn;
         repeat split; try done; apply lookup_insert_eq);
    unfold bind, record_no_flag, call_warnFunction, get_globals,
      put_globals, emit, invoke; cbn;
    (destruct (warnFunction _ _) as [[]| |]; [| discriminate | discriminate ]);
    intros [= <-]; cbn; repeat split; try done;
    rewrite dom_insert_L; set_solver.
Qed.

Lemma initializeFlags_range_Normal (l : list ConfigItem) (w w' : World) :
  range l initializeFlag w = Normal tt w' ->
  trace w' = trace w ++ map flag_event l
  /\ configItems (globals w') = configItems (globals w)
  /\ store (ext w') = store (ext w)
  /\ (forall item k, item ∈ l -> supported_kind (Default item) = Some k ->
        pflag.formal (CommandLine (ext w')) !! flagname_of item
        = Some (pflag.newFlag (flagname_of item) (zero_value k)
                              (Description item) None))
  /\ (forall item, item ∈ l -> supported_kind (Default item) = None ->
        Key item ∈ dom (configItemKeysWithNoFlags (globals w'))).
Proof.
  revert w. induction l as [|x l IH]; intros w H.
  - injection H as <-. rewrite app_nil_r. repeat split; try done.
    + intros item k Hin. by apply not_elem_of_nil in Hin.
    + intros item Hin. by apply not_elem_of_nil in Hin.
  - apply range_Normal_cons in H as (w1 & Hx & Hl).
    pose proof (flags_grow_initializeFlag x) as Hgrow_x.
    assert (Hgrow : flags_grow w1 w').
    { rewrite <- (final_Normal _ _ _ Hl).
      apply (stable_range (R := flags_grow)). intros y _.
      apply flags_grow_initializeFlag. }
    assert (Hkept : kept any_event w1 w').
    { rewrite <- (final_Normal _ _ _ Hl).
      assert (Hst : stable (kept any_event) (range l initializeFlag)).
      { apply stable_range. intros y _. by apply stable_initializeFlag. }
      apply Hst. }
    apply initializeFlag_Normal in Hx as (Ht1 & Hi1 & Hs1 & Hk1).
    apply IH in Hl as (Ht2 & Hi2 & Hs2 & Hf2 & Hn2).
    split; [ rewrite Ht2, Ht1, <- app_assoc; done |].
    split; [ congruence |]. split; [ congruence |]. split.
    + intros item k Hin Hsup. apply elem_of_cons in Hin as [->|Hin].
      * rewrite Hsup in Hk1. eapply lookup_weaken; [ exact Hk1 | exact Hgrow ].
      * by apply Hf2.
    + intros item Hin Hsup. apply elem_of_cons in Hin as [->|Hin].
      * rewrite Hsup in Hk1. destruct Hkept as (_ & Hdom & _).
        exact (Hdom _ Hk1).
      * by apply Hn2.
Qed.

Lemma initializeFlags_Normal (cp sp : string) (w w' : World) :
  initializeFlags cp sp w = Normal tt w' ->
  trace w' = trace w ++ path_flag_events cp sp
                     ++ map flag_event (configItems (globals w))
  /\ configItems (globals w') = configItems (globals w)
  /\ store (ext w') = store (ext w)
  /\ (forall item k, item ∈ configItems (globals w) ->
        supported_kind (Default item) = Some k ->
        pflag.formal (CommandLine (ext w')) !! flagname_of item
        = Some (pflag.newFlag (flagname_of item) (zero_value k)
                              (Description item) None))
  /\ (forall item, item ∈ configItems (globals w) ->
        supported_kind (Default item) = None ->
        Key item ∈ dom (configItemKeysWithNoFlags (globals w'))).
Proof.
  unfold initializeFlags, pflag_StringVar. intros H.
  apply bind_Normal in H as ([] & w1 & H1 & H).
  apply bind_Normal in H1 as ([] & w0 & H0 & H1).
  apply bind_Normal in H as ([] & w3 & H3 & H).
  apply bind_Normal in H3 as ([] & w2 & H2 & H3).
  apply bind_Normal in H as (g & w4 & Hg & H).
  injection Hg as <- <-.
  apply pflag_Var_Normal in H1 as [_ ->].
  apply pflag_Var_Normal in H3 as [_ ->].
  assert (Hw0 : configItems (globals w0) = configItems (globals w)
                /\ store (ext w0) = store (ext w) /\ trace w0 = trace w).
  { revert H0. rewrite assign_var_run. intros [= <-]. done. }
  assert (Hw2 : configItems (globals w2) = configItems (globals w0)
                /\ store (ext w2) = store (ext w0)
                /\ trace w2 = trace w0 ++ [EvAddFlag "config-path"
                     (pflag.FString cp) "config file path without file name"]).
  { revert H2. rewrite assign_var_run. intros [= <-]. done. }
  destruct Hw0 as (Hi0 & He0 & Ht0). destruct Hw2 as (Hi2 & Hs2 & Ht2).
  apply initializeFlags_range_Normal in H as (Ht & Hi & Hs & Hf & Hn).
  cbn in *. rewrite Hi2, Hi0 in *.
  split.
  { rewrite Ht, Ht2, Ht0. unfold path_flag_events.
    rewrite <- !app_assoc. done. }
  split; [ congruence |].
  split; [ rewrite Hs, Hs2, He0; done |].
  split; [ exact Hf | exact Hn ].
Qed.

(* ===================================================================== *)
(** * Flag binding and the full setup *)
(* ===================================================================== *)

(** ** Flag binding *)

Lemma bindFlag_present (key flagname : string) (w : World) (fl : pflag.Flag) :
  pflag.Lookup (CommandLine (ext w)) flagname = Some fl ->
  bindFlag key flagname w =
  Normal tt {| globals := globals w;
               ext := with_store (ext w)
                        (fst (viper.BindPFlag (store (ext w)) key (Some fl)));
               trace := trace w ++ [EvBindPFlag key flagname] |}.
Proof.
  intros Hfl. unfold bindFlag, viper_BindPFlag_Lookup, pflag_Lookup, bind,
    get_ext, emit, put_ext, ret. cbn. rewrite Hfl. reflexivity.
Qed.

Lemma setupFlags_range (l : list ConfigItem) (w : World) :
  flags_present l w ->
  range l (fun item =>
    g' <- get_globals ;;
    match configItemKeysWithNoFlags g' !! Key item with
    | None => bindFlag (Key item) (flagname_of item)
    | Some _ => ret tt
    end) w =
  Normal tt
    {| globals := globals w;
       ext := with_store (ext w)
                (flags_after (configItemKeysWithNoFlags (globals w))
                             (CommandLine (ext w)) l (store (ext w)));
       trace := trace w ++ map bind_event
                  (List.filter (has_flag (configItemKeysWithNoFlags (globals w))) l) |}.
Proof.
  revert w. induction l as [|item l IH]; intros w Hpres.
  - simpl. unfold ret. rewrite with_store_id, app_nil_r. destruct w; reflexivity.
  - cbn [range List.filter flags_after foldl]. unfold bind at 1.
    unfold bind at 1, get_globals.
    pose proof (Hpres item ltac:(left)) as Hitem.
    unfold has_flag in *.
    destruct (configItemKeysWithNoFlags (globals w) !! Key item) eqn:Hk.
    + unfold ret. rewrite IH.
      * reflexivity.
      * intros y Hy. apply Hpres. by right.
    + destruct (Hitem eq_refl) as [fl Hfl].
      rewrite (bindFlag_present _ _ _ fl Hfl).
      rewrite IH.
      * cbn. rewrite Hfl. cbn. rewrite <- app_assoc. reflexivity.
      * intros y Hy. cbn. apply Hpres. by right.
Qed.

Lemma setupFlags_run (w : World) :
  flags_present (configItems (globals w)) w ->
  setupFlags w =
  Normal tt
    {| globals := globals w;
       ext := with_store (ext w)
                (flags_after (configItemKeysWithNoFlags (globals w))
                             (CommandLine (ext w)) (configItems (globals w))
                             (store (ext w)));
       trace := trace w ++ map bind_event
                  (List.filter (has_flag (configItemKeysWithNoFlags (globals w)))
                               (configItems (globals w))) |}.
Proof. intros H. unfold setupFlags, bind at 1, get_globals. by apply setupFlags_range. Qed.

(** ** A full setup *)

Lemma assign_setup_run (items : list ConfigItem) (failFunc : ConfigFailFunc)
    (warnFunc : ConfigWarnFunc) (w : World) :
  assign_setup items failFunc warnFunc w
  = Normal tt (assigned items failFunc warnFunc w).
Proof. reflexivity. Qed.

Lemma allowed_no_store_call (noflags : gmap string bool) (evs : list Event) :
  Forall (allowed no_store_call noflags) evs -> Forall no_store_call evs.
Proof.
  intros H. eapply Forall_impl; [ exact H |]. intros ev [HQ _]. exact HQ.
Qed.

Lemma Forall_no_store_call_filter (evs : list Event) :
  Forall no_store_call evs -> List.filter is_store_call evs = [].
Proof.
  induction 1 as [|ev evs Hev _ IH]; [ reflexivity |].
  simpl. rewrite Hev. exact IH.
Qed.

(** A full setup either stops while it registers or parses the flags,
    before any call to the store, or it runs to its end and makes the
    calls of [setup_events]. *)
Lemma Setup_outcome (items : list ConfigItem) (failFunc : ConfigFailFunc)
    (warnFunc : ConfigWarnFunc) (cp sp : string) (w : World) :
  let o := SetupWithOverriddenConfigPath items failFunc warnFunc cp sp w in
  (is_normal o = false
   /\ configItems (globals (final o)) = items
   /\ exists evs, trace (final o) = trace w ++ evs /\ Forall no_store_call evs)
  \/ (exists w', o = Normal tt w'
      /\ configItems (globals w') = items
      /\ trace w' = trace w ++ setup_events cp sp items
                                 (configItemKeysWithNoFlags (globals w'))
      /\ (forall item k, item ∈ items ->
            supported_kind (Default item) = Some k ->
            is_Some (pflag.Lookup (CommandLine (ext w')) (flagname_of item)))
      /\ (forall item, item ∈ items -> supported_kind (Default item) = None ->
            Key item ∈ dom (configItemKeysWithNoFlags (globals w')))).
Proof.
  intros o.
  set (w0 := assigned items failFunc warnFunc w).
  assert (Ho : o = match initializeFlags cp sp w0 with
                   | Normal _ w1 =>
                     match pflag_Parse w1 with
                     | Normal _ w2 => (setupDefaults ;; setupEnv ;; setupFlags) w2
                     | Panic v w' => Panic v w'
                     | Exit c w' => Exit c w'
                     end
                   | Panic v w' => Panic v w'
                   | Exit c w' => Exit c w'
                   end) by reflexivity.
  clearbody o.
  assert (Hinit : stable (kept no_store_call) (initializeFlags cp sp)).
  { by apply stable_initializeFlags. }
  specialize (Hinit w0).
  destruct (initializeFlags cp sp w0) as [[] w1|v w1|c w1] eqn:Hrun;
    cbn in Hinit; subst o.
  2,3: left; destruct Hinit as (Hi & _ & _ & evs & Ht & Hall);
       (split; [ reflexivity |]); (split; [ exact Hi |]);
       exists evs; split; [ exact Ht | by eapply allowed_no_store_call ].
  apply initializeFlags_Normal in Hrun as (Ht1 & Hi1 & Hs1 & Hf1 & Hn1).
  assert (Hparse : stable (kept no_store_call) pflag_Parse).
  { by apply stable_pflag_Parse. }
  specialize (Hparse w1).
  pose proof (pflag_Parse_quiet w1) as Hq.
  destruct (pflag_Parse w1) as [[] w2|v w2|c w2] eqn:Hrun2; cbn in Hparse, Hq.
  2,3: left; destruct Hinit as (_ & _ & _ & evs1 & Ht1' & Hall1);
       destruct Hparse as (Hi & _ & _ & evs2 & Ht2 & Hall2);
       (split; [ reflexivity |]); (split; [ cbn; rewrite Hi, Hi1; reflexivity |]);
       exists (evs1 ++ evs2); (split; [ cbn; rewrite Ht2, Ht1', app_assoc; done |]);
       apply Forall_app; split; by eapply allowed_no_store_call.
  right.
  destruct Hq as (Ht2 & Hi2 & Hn2 & Hs2 & Hd2). cbn in Ht2, Hi2, Hn2, Hs2, Hd2.
  unfold bind at 1. rewrite setupDefaults_run.
  unfold bind at 1. rewrite setupEnv_run. cbn [globals ext trace].
  rewrite setupFlags_run.
  2:{ intros item Hin Hhas. cbn in *. rewrite Hi2, Hi1 in Hin.
      unfold has_flag in Hhas. rewrite Hn2 in Hhas.
      destruct (supported_kind (Default item)) as [k|] eqn:Hsup.
      - apply elem_of_dom, Hd2, elem_of_dom. unfold pflag.Lookup in Hf1.
        rewrite (Hf1 item k Hin Hsup). eauto.
      - specialize (Hn1 item Hin Hsup). apply elem_of_dom in Hn1 as [b Hb].
        rewrite Hb in Hhas. discriminate. }
  eexists. split; [ reflexivity |]. cbn [globals ext trace].
  split; [ rewrite Hi2, Hi1; reflexivity |].
  split.
  { rewrite Ht2, Ht1. rewrite Hi2, Hi1. cbn [configItems globals w0 assigned].
    unfold setup_events. rewrite <- !app_assoc. reflexivity. }
  split.
  - intros item k Hin Hsup. cbn. apply elem_of_dom, Hd2, elem_of_dom.
    rewrite (Hf1 item k Hin Hsup). eauto.
  - intros item Hin Hsup. rewrite Hn2. by apply Hn1.
Qed.

(* ===================================================================== *)
(** * The nested maps of the store *)
(* ===================================================================== *)

(** ** Lower case and the pieces of a key *)

Lemma lower_idempotent (c : ascii) : strings.lower (strings.lower c) = strings.lower c.
Proof. destruct c as [[] [] [] [] [] [] [] []]; reflexivity. Qed.

Lemma lower_keyDelim (c : ascii) :
  strings.lower c = viper.keyDelim <-> c = viper.keyDelim.
Proof.
  destruct c as [[] [] [] [] [] [] [] []]; vm_compute; split; congruence.
Qed.

Lemma ToLower_String (c : ascii) (s : string) :
  strings.ToLower (String c s) = String (strings.lower c) (strings.ToLower s).
Proof. reflexivity. Qed.

Lemma ToLower_idempotent (s : string) :
  strings.ToLower (strings.ToLower s) = strings.ToLower s.
Proof.
  induction s as [|c s IH]; [ reflexivity |].
  rewrite !ToLower_String, lower_idempotent, IH. reflexivity.
Qed.

Lemma Split_not_nil (s : string) (sep : ascii) : strings.Split s sep <> [].
Proof.
  destruct s as [|c s]; cbn; [ done |].
  destruct (decide (c = sep)); [ done |].
  destruct (strings.Split s sep); done.
Qed.

Lemma Split_ToLower (s : string) :
  strings.Split (strings.ToLower s) viper.keyDelim
  = map strings.ToLower (strings.Split s viper.keyDelim).
Proof.
  induction s as [|c s IH]; [ reflexivity |].
  rewrite ToLower_String. cbn [strings.Split]. rewrite IH.
  destruct (decide (c = viper.keyDelim)) as [->|Hc].
  - reflexivity.
  - destruct (decide (strings.lower c = viper.keyDelim)) as [Hl|_].
    { destruct (Hc (proj1 (lower_keyDelim c) Hl)). }
    pose proof (Split_not_nil s viper.keyDelim).
    destruct (strings.Split s viper.keyDelim); [ done |]. reflexivity.
Qed.

Lemma key_path_not_nil (key : string) : key_path key <> [].
Proof. apply Split_not_nil. Qed.

(** The path under which [SetDefault] files a value is the path under
    which a lookup searches it. *)
Lemma key_path_last (key : string) :
  removelast (key_path key) ++ [strings.ToLower (List.last (key_path key) "")]
  = key_path key.
Proof.
  pose proof (key_path_not_nil key) as Hne.
  unfold key_path in *. rewrite Split_ToLower in *.
  destruct (strings.Split key viper.keyDelim) as [|x l] using rev_ind; [ done |].
  rewrite map_app. cbn [map]. rewrite removelast_last, last_last.
  by rewrite ToLower_idempotent.
Qed.

(** ** Nested maps *)

Lemma submap_insert_eq (m : gmap string viper.Node) (k : string)
    (m' : gmap string viper.Node) :
  viper.submap (<[k := viper.Dir m']> m) k = m'.
Proof. unfold viper.submap. by rewrite lookup_insert_eq. Qed.

Lemma submap_insert_ne (m : gmap string viper.Node) (k k' : string)
    (n : viper.Node) :
  k <> k' -> viper.submap (<[k := n]> m) k' = viper.submap m k'.
Proof. intros H. unfold viper.submap. by rewrite lookup_insert_ne. Qed.

Lemma searchMap_empty (k : string) (path : list string) :
  viper.searchMap ∅ (k :: path) = None.
Proof. cbn. by rewrite lookup_empty. Qed.

Lemma searchMap_submap (m : gmap string viper.Node) (k k' : string)
    (path : list string) :
  viper.searchMap m (k :: k' :: path)
  = match m !! k with
    | Some _ => viper.searchMap (viper.submap m k) (k' :: path)
    | None => None
    end.
Proof.
  cbn [viper.searchMap]. unfold viper.submap.
  destruct (m !! k) as [[v|m']|]; reflexivity.
Qed.

(** A value is found where it was put. *)
Lemma searchMap_deepSet (pre : list string) (lastKey : string)
    (value : viper.Node) (m : gmap string viper.Node) :
  viper.searchMap (viper.deepSet pre lastKey value m) (pre ++ [lastKey])
  = Some value.
Proof.
  revert m. induction pre as [|k pre IH]; intros m.
  - cbn. by rewrite lookup_insert_eq.
  - cbn [viper.deepSet app].
    destruct (pre ++ [lastKey]) as [|k' rest] eqn:Hrest.
    { by destruct pre. }
    rewrite searchMap_submap, lookup_insert_eq, submap_insert_eq.
    apply IH.
Qed.

(** Putting a value leaves alone what is found along a path that
    neither runs through the place nor through which the place runs. *)
Lemma searchMap_deepSet_other (pre : list string) (lastKey : string)
    (value : viper.Node) (m : gmap string viper.Node) (path : list string) :
  ~ related (pre ++ [lastKey]) path ->
  viper.searchMap (viper.deepSet pre lastKey value m) path
  = viper.searchMap m path.
Proof.
  revert m path. induction pre as [|k pre IH]; intros m path Hnot.
  - destruct path as [|k' path].
    { destruct Hnot. right. apply prefix_nil. }
    assert (lastKey <> k') as Hne.
    { intros ->. destruct Hnot. left. apply prefix_cons, prefix_nil. }
    cbn. by rewrite lookup_insert_ne.
  - destruct path as [|k' path].
    { destruct Hnot. right. apply prefix_nil. }
    destruct (decide (k = k')) as [<-|Hne].
    + destruct path as [|k2 path].
      { destruct Hnot. right. apply prefix_cons, prefix_nil. }
      cbn [viper.deepSet].
      rewrite !searchMap_submap, lookup_insert_eq, submap_insert_eq.
      rewrite IH.
      * destruct (m !! k) as [n|] eqn:Hk; [ reflexivity |].
        unfold viper.submap. rewrite Hk. apply searchMap_empty.
      * intros [H|H]; apply Hnot; [ left | right ]; by apply prefix_cons.
    + cbn. by rewrite lookup_insert_ne.
Qed.

(** A value put at a place replaces what was put at or below it. *)
Lemma deepSet_absorbs (p : list string) (lp : string) (v : viper.Node)
    (q : list string) (lq : string) (u : viper.Node)
    (m : gmap string viper.Node) :
  (p ++ [lp]) `prefix_of` (q ++ [lq]) ->
  viper.deepSet p lp v (viper.deepSet q lq u m) = viper.deepSet p lp v m.
Proof.
  revert q m. induction p as [|k p IH]; intros q m Hpre.
  - destruct q as [|k' q]; cbn in Hpre.
    + apply prefix_cons_inv_1 in Hpre as ->. cbn. apply insert_insert_eq.
    + apply prefix_cons_inv_1 in Hpre as ->. cbn. apply insert_insert_eq.
  - destruct q as [|k' q]; cbn in Hpre.
    + apply prefix_cons_inv_2, prefix_nil_inv in Hpre. by destruct p.
    + pose proof (prefix_cons_inv_1 _ _ _ _ Hpre) as ->.
      apply prefix_cons_inv_2 in Hpre.
      cbn [viper.deepSet]. rewrite submap_insert_eq, insert_insert_eq.
      by rewrite IH.
Qed.

(** Values put at places of which none runs through the other can be
    put in either order. *)
Lemma deepSet_commutes (p : list string) (lp : string) (v : viper.Node)
    (q : list string) (lq : string) (u : viper.Node)
    (m : gmap string viper.Node) :
  ~ related (p ++ [lp]) (q ++ [lq]) ->
  viper.deepSet p lp v (viper.deepSet q lq u m)
  = viper.deepSet q lq u (viper.deepSet p lp v m).
Proof.
  revert q m. induction p as [|k p IH]; intros q m Hnot.
  - destruct q as [|k' q]; cbn in Hnot.
    + assert (lp <> lq) by (intros ->; apply Hnot; by left).
      cbn. by apply insert_insert_ne.
    + assert (lp <> k').
      { intros ->. apply Hnot. left. apply prefix_cons, prefix_nil. }
      cbn [viper.deepSet]. rewrite submap_insert_ne by done.
      by apply insert_insert_ne.
  - destruct q as [|k' q]; cbn in Hnot.
    + assert (k <> lq).
      { intros ->. apply Hnot. right. apply prefix_cons, prefix_nil. }
      cbn [viper.deepSet]. rewrite submap_insert_ne by done.
      by apply insert_insert_ne.
    + destruct (decide (k = k')) as [<-|Hne].
      * cbn [viper.deepSet]. rewrite !submap_insert_eq, !insert_insert_eq.
        rewrite IH; [ reflexivity |].
        intros [H|H]; apply Hnot; [ left | right ]; by apply prefix_cons.
      * cbn [viper.deepSet]. rewrite !submap_insert_ne by done.
        by apply insert_insert_ne.
Qed.

(** ** [SetDefault] on the nested maps *)

Lemma Viper_eq (v v' : viper.Viper) :
  viper.defaults v = viper.defaults v' -> viper.env v = viper.env v' ->
  viper.pflags v = viper.pflags v' -> viper.config v = viper.config v' ->
  v = v'.
Proof. destruct v, v'. cbn. by intros -> -> -> ->. Qed.

Lemma SetDefault_found (v : viper.Viper) (key : string) (value : GoValue) :
  viper.searchMap (viper.defaults (viper.SetDefault v key value)) (key_path key)
  = Some (viper.Leaf value).
Proof.
  rewrite <- (key_path_last key). apply searchMap_deepSet.
Qed.

Lemma SetDefault_other (v : viper.Viper) (key : string) (value : GoValue)
    (path : list string) :
  ~ related (key_path key) path ->
  viper.searchMap (viper.defaults (viper.SetDefault v key value)) path
  = viper.searchMap (viper.defaults v) path.
Proof.
  intros H. apply searchMap_deepSet_other. fold (key_path key).
  by rewrite key_path_last.
Qed.

Lemma SetDefault_absorbs (v : viper.Viper) (key key' : string)
    (value value' : GoValue) :
  key_path key `prefix_of` key_path key' ->
  viper.SetDefault (viper.SetDefault v key' value') key value
  = viper.SetDefault v key value.
Proof.
  intros H. apply Viper_eq; try reflexivity. cbn.
  apply deepSet_absorbs. fold (key_path key) (key_path key').
  by rewrite !key_path_last.
Qed.

Lemma SetDefault_commutes (v : viper.Viper) (key key' : string)
    (value value' : GoValue) :
  ~ related (key_path key) (key_path key') ->
  viper.SetDefault (viper.SetDefault v key' value') key value
  = viper.SetDefault (viper.SetDefault v key value) key' value'.
Proof.
  intros H. apply Viper_eq; try reflexivity. cbn.
  apply deepSet_commutes. fold (key_path key) (key_path key').
  by rewrite !key_path_last.
Qed.

(** ** The default layer after a pass *)

Lemma defaults_after_cons (item : ConfigItem) (l : list ConfigItem)
    (v : viper.Viper) :
  defaults_after (item :: l) v
  = defaults_after l (viper.SetDefault v (Key item) (Default item)).
Proof. reflexivity. Qed.

Lemma defaults_after_app (l1 l2 : list ConfigItem) (v : viper.Viper) :
  defaults_after (l1 ++ l2) v = defaults_after l2 (defaults_after l1 v).
Proof. unfold defaults_after. apply foldl_app. Qed.

Lemma defaults_after_layers (l : list ConfigItem) (v : viper.Viper) :
  viper.env (defaults_after l v) = viper.env v
  /\ viper.pflags (defaults_after l v) = viper.pflags v
  /\ viper.config (defaults_after l v) = viper.config v.
Proof.
  revert v. induction l as [|item l IH]; intros v; [ done |].
  rewrite defaults_after_cons.
  destruct (IH (viper.SetDefault v (Key item) (Default item))) as (H1 & H2 & H3).
  rewrite H1, H2, H3. done.
Qed.

Lemma related_sym (p q : list string) : related p q -> related q p.
Proof. unfold related. tauto. Qed.

(** What a later default replaces can be left out, whatever is set in
    between. *)
Lemma defaults_after_drops (l : list ConfigItem) (v : viper.Viper)
    (key' : string) (value' : GoValue) (key : string) (value : GoValue) :
  key_path key `prefix_of` key_path key' ->
  viper.SetDefault (defaults_after l (viper.SetDefault v key' value')) key value
  = viper.SetDefault (defaults_after l v) key value.
Proof.
  revert v key' value'. induction l as [|h l IH]; intros v key' value' Hpre.
  - by apply SetDefault_absorbs.
  - rewrite !defaults_after_cons.
    destruct (decide (key_path (Key h) `prefix_of` key_path key')) as [Hh|Hh].
    { by rewrite SetDefault_absorbs. }
    destruct (decide (key_path key' `prefix_of` key_path (Key h))) as [Hg|Hg].
    + assert (key_path key `prefix_of` key_path (Key h)) as Hpre'
        by (by etransitivity).
      rewrite (IH _ (Key h) (Default h) Hpre').
      rewrite (IH _ key' value' Hpre).
      by rewrite <- (IH v (Key h) (Default h) Hpre').
    + rewrite SetDefault_commutes.
      * by apply IH.
      * unfold related. tauto.
Qed.

Lemma defaults_after_covered (t s : list ConfigItem) (v : viper.Viper) :
  (forall g, g ∈ t ->
     exists s1 f s2, s = s1 ++ f :: s2
                     /\ key_path (Key f) `prefix_of` key_path (Key g)) ->
  defaults_after s (defaults_after t v) = defaults_after s v.
Proof.
  induction t as [|g t IH] using rev_ind; intros Hcov; [ reflexivity |].
  destruct (Hcov g) as (s1 & f & s2 & -> & Hpre).
  { apply elem_of_app. right. by apply list_elem_of_singleton. }
  transitivity (defaults_after (s1 ++ f :: s2) (defaults_after t v)).
  - rewrite (defaults_after_app t [g]).
    rewrite !(defaults_after_app s1), !defaults_after_cons.
    change (defaults_after [] ?x) with x.
    by rewrite defaults_after_drops.
  - apply IH. intros g' Hg'. apply Hcov. apply elem_of_app. by left.
Qed.

(** Setting the same defaults a second time changes nothing. *)
Lemma defaults_after_idempotent (items : list ConfigItem) (v : viper.Viper) :
  defaults_after items (defaults_after items v) = defaults_after items v.
Proof.
  apply defaults_after_covered. intros g Hg.
  apply list_elem_of_split in Hg as (s1 & s2 & ->).
  exists s1, g, s2. done.
Qed.

Lemma defaults_after_other (l : list ConfigItem) (v : viper.Viper)
    (path : list string) :
  Forall (fun later => ~ related path (key_path (Key later))) l ->
  viper.searchMap (viper.defaults (defaults_after l v)) path
  = viper.searchMap (viper.defaults v) path.
Proof.
  revert v. induction l as [|item l IH]; intros v Hl; [ reflexivity |].
  apply Forall_cons in Hl as [Hitem Hl].
  rewrite defaults_after_cons, IH by exact Hl.
  apply SetDefault_other. intros H. by apply Hitem, related_sym.
Qed.

(** The default of an item is found under its key when no later key
    runs through it or under it. *)
Lemma defaults_after_found (l1 l2 : list ConfigItem) (item : ConfigItem)
    (v : viper.Viper) :
  Forall (fun later => ~ related (key_path (Key item)) (key_path (Key later)))
         l2 ->
  viper.searchMap (viper.defaults (defaults_after (l1 ++ item :: l2) v))
                  (key_path (Key item))
  = Some (viper.Leaf (Default item)).
Proof.
  intros Hl2. rewrite defaults_after_app, defaults_after_cons.
  rewrite defaults_after_other by exact Hl2. apply SetDefault_found.
Qed.

(* ===================================================================== *)
(** * Environment variable names *)
(* ===================================================================== *)

(** ** The layers after a pass *)

Lemma env_after_app (l1 l2 : list ConfigItem) (v : viper.Viper) :
  env_after (l1 ++ l2) v = env_after l2 (env_after l1 v).
Proof. unfold env_after. apply foldl_app. Qed.

Lemma env_after_cons (item : ConfigItem) (l : list ConfigItem) (v : viper.Viper) :
  env_after (item :: l) v
  = env_after l (fst (viper.BindEnv v (Key item) (env_name_of item))).
Proof. reflexivity. Qed.

Lemma env_after_other (l : list ConfigItem) (v : viper.Viper) (key : string) :
  key ∉ map Key l ->
  viper.env (env_after l v) !! key = viper.env v !! key.
Proof.
  revert v. induction l as [|item l IH]; intros v Hnot; [ reflexivity |].
  rewrite env_after_cons.
  apply not_elem_of_cons in Hnot as [Hne Hnot].
  rewrite IH by exact Hnot. cbn. by apply lookup_insert_ne.
Qed.

Lemma env_after_last (l1 l2 : list ConfigItem) (item : ConfigItem)
    (v : viper.Viper) :
  Key item ∉ map Key l2 ->
  viper.env (env_after (l1 ++ item :: l2) v) !! Key item
  = Some (env_name_of item).
Proof.
  intros Hnot. rewrite env_after_app. rewrite env_after_cons.
  rewrite env_after_other by exact Hnot. cbn. apply lookup_insert_eq.
Qed.

(** ** Filters over the expected traces *)

Lemma filter_map_none {A} (p : Event -> bool) (f : A -> Event) (l : list A) :
  (forall x, p (f x) = false) -> List.filter p (map f l) = [].
Proof.
  intros H. induction l as [|x l IH]; [ reflexivity |].
  simpl. rewrite H. exact IH.
Qed.

Lemma filter_map_all {A} (p : Event -> bool) (f : A -> Event) (l : list A) :
  (forall x, p (f x) = true) -> List.filter p (map f l) = map f l.
Proof.
  intros H. induction l as [|x l IH]; [ reflexivity |].
  simpl. rewrite H, IH. reflexivity.
Qed.

Lemma filter_map_some {A} (p : Event -> bool) (q : A -> bool) (f : A -> Event)
    (l : list A) :
  (forall x, p (f x) = q x) ->
  List.filter p (map f l) = map f (List.filter q l).
Proof.
  intros H. induction l as [|x l IH]; [ reflexivity |].
  simpl. rewrite H. destruct (q x); simpl; rewrite IH; reflexivity.
Qed.

Lemma env_name_of_derived (item : ConfigItem) :
  EnvName item = "" -> env_name_of item = derivedEnvName (Key item).
Proof. intros H. unfold env_name_of. rewrite H. reflexivity. Qed.




(* ===================================================================== *)
(** * Upper case letters; what a binding returns *)
(* ===================================================================== *)

(** ** What the derived name is made of *)

Lemma replaced_bytes (fuel : nat) (s : list ascii) :
  forallb lower_digit_or_underscore
    (concat (map (replace_outside ["_"%char]) (characters_of fuel s))) = true.
Proof.
  revert s. induction fuel as [|fuel IH]; intros s; [ reflexivity |].
  destruct s as [|c t]; [ reflexivity |].
  cbn [characters_of]. cbv zeta. cbn [map concat].
  rewrite forallb_app, IH, andb_true_r.
  unfold replace_outside. cbn [fst snd].
  destruct (regexp.in_a_z_0_9 (fst (utf8.DecodeRuneInString (c :: t)))) eqn:Hin;
    [| reflexivity ].
  destruct (DecodeRune_kept _ Hin) as (c' & t' & [= <- <-] & Hd).
  rewrite Hd in Hin |- *. cbn [fst snd take forallb] in *.
  unfold lower_digit_or_underscore. rewrite Hin. reflexivity.
Qed.

Lemma upper_case_outside (r : Z) :
  is_A_Z r = true -> regexp.in_a_z_0_9 r = false.
Proof. unfold is_A_Z, regexp.in_a_z_0_9. lia. Qed.

(** C2 (amended): upper case letters of the key do not pass through.
    Every character of the key that is an upper case letter is replaced
    by ["_"], like every other character outside [[a-z0-9]]; the derived
    name of an item with empty [EnvName] is ["CONFIG_"] followed by lower
    case letters, digits and underscores only. *)
Theorem uppercase_letters_are_replaced (item : ConfigItem) (c : Z * string) :
  EnvName item = "" ->
  In c (characters (Key item)) ->
  is_A_Z (fst c) = true ->
  env_name_of item = "CONFIG_" +:+ regexp.ReplaceAllString (Key item) "_"
  /\ regexp.ReplaceAllString (Key item) "_"
     = joined (map underscore_outside_a_z_0_9 (characters (Key item)))
  /\ underscore_outside_a_z_0_9 c = "_"
  /\ forallb lower_digit_or_underscore
       (list_ascii_of_string (regexp.ReplaceAllString (Key item) "_")) = true.
Proof.
  intros Hempty Hc Hupper.
  split; [ apply (env_name_of_derived item Hempty) |].
  split; [ apply ReplaceAllString_characters |].
  split.
  - unfold underscore_outside_a_z_0_9. rewrite upper_case_outside by exact Hupper.
    reflexivity.
  - unfold regexp.ReplaceAllString.
    rewrite list_ascii_of_string_of_list_ascii.
    rewrite replaceAll_characters by lia.
    rewrite drop_0, app_nil_l. apply replaced_bytes.
Qed.

(** Witness of C2: the key [Server.Port] and its first character. *)
Lemma uppercase_letters_are_replaced_witness :
  env_name_of Server_Port = "CONFIG__erver__ort".
Proof.
  refine (proj1 (uppercase_letters_are_replaced Server_Port (0x53%Z, "S")
                   eq_refl _ eq_refl)).
  vm_compute. left. reflexivity.
Defined.

(** Counterexample to C2 as stated: for the key [Server.Port] the call
    of [setupEnv] binds [CONFIG__erver__ort], not [CONFIG_Server_Port]. *)
Lemma uppercase_preserved_counterexample :
  since (assigned [Server_Port] fail warn fresh_world)
        (final (setupEnv (assigned [Server_Port] fail warn fresh_world)))
  = [EvBindEnv "Server.Port" "CONFIG__erver__ort"]
  /\ derivedEnvName "Server.Port" <> "CONFIG_Server_Port".
Proof. split; [ vm_compute; reflexivity | vm_compute; discriminate ]. Qed.

(** ** What a binding returns *)

Lemma range_ext {A} (l : list A) (body body' : A -> M unit) (w : World) :
  (forall x w1, body x w1 = body' x w1) ->
  range l body w = range l body' w.
Proof.
  intros H. revert w. induction l as [|x l IH]; intros w; [ reflexivity |].
  cbn [range]. unfold bind. rewrite H.
  destruct (body' x w); try reflexivity. apply IH.
Qed.

Lemma setupEnv_with_answer (answer : string -> string -> option error)
    (w : World) :
  setupEnv_with (viper_BindEnv_answering answer) w = setupEnv w.
Proof.
  unfold setupEnv, setupEnv_with, bind at 1 4, get_globals.
  apply range_ext. intros item w1. reflexivity.
Qed.

(** C6: what the binding of an environment variable returns is ignored.
    Whatever the registry, items with an empty key included, [setupEnv]
    returns normally after one [BindEnv] call per item, in registry
    order; it calls neither the fail nor the warn callback and leaves
    the package variables and the flag set as they are.  The pass does
    not depend on what the bindings return: with any answer, an error or
    none, in the place of the answer of the store, it makes the same
    calls and ends in the same state.  So it does with an answer that is
    an error for the empty key and with a noting failure handler
    installed. *)
Theorem env_bind_failure_is_ignored (w : World) :
  is_normal (setupEnv w) = true
  /\ globals (final (setupEnv w)) = globals w
  /\ CommandLine (ext (final (setupEnv w))) = CommandLine (ext w)
  /\ since w (final (setupEnv w)) = map env_event (configItems (globals w))
  /\ List.filter is_fail_call (since w (final (setupEnv w))) = []
  /\ List.filter is_warning (since w (final (setupEnv w))) = []
  /\ (forall answer : string -> string -> option error,
        setupEnv_with (viper_BindEnv_answering answer) w = setupEnv w)
  /\ since (assigned [server_address; empty_key_item; server_port]
                     noting_fail warn fresh_world)
           (final (setupEnv_with
                     (viper_BindEnv_answering
                        (fun key _ => if decide (key = "")
                                      then Some "missing key to bind to"
                                      else None))
                     (assigned [server_address; empty_key_item; server_port]
                               noting_fail warn fresh_world)))
     = [EvBindEnv "server.address" "CONFIG_server_address";
        EvBindEnv "" "CONFIG_";
        EvBindEnv "server.port" "CONFIG_server_port"].
Proof.
  rewrite setupEnv_run. cbn [final is_normal globals ext CommandLine with_store].
  split; [ reflexivity |]. split; [ reflexivity |]. split; [ reflexivity |].
  erewrite since_app by reflexivity.
  split; [ reflexivity |].
  split; [ by apply filter_map_none |].
  split; [ by apply filter_map_none |].
  split; [ intros answer; rewrite setupEnv_with_answer; apply setupEnv_run |].
  vm_compute. reflexivity.
Qed.

(* ===================================================================== *)
(** * Validation; defaults only *)
(* ===================================================================== *)

(** ** The validation pass *)

Lemma logged_logged (w : World) (evs1 evs2 : list Event) :
  logged (logged w evs1) evs2 = logged w (evs1 ++ evs2).
Proof. unfold logged. cbn. rewrite app_assoc. reflexivity. Qed.

Lemma validate_range (l : list ConfigItem) (w : World) :
  range l (fun item =>
    err <- call_Validate item ;;
    match err with
    | Some err => invoke (fail err)
    | None => ret tt
    end) w
  = validation_outcome w l.
Proof.
  revert w. induction l as [|item l IH]; intros w.
  - unfold validation_outcome. cbn. rewrite logged_nil. reflexivity.
  - cbn [range]. unfold bind at 1. unfold bind at 1.
    unfold call_Validate, bind, emit, get_ext, invoke. cbn [ext].
    unfold validation_outcome. cbn [first_failure validated].
    destruct (Validate item (Key item) (ext w)) as [[err|]| |]; try reflexivity.
    unfold ret. rewrite IH. unfold validation_outcome. cbn [ext logged map].
    destruct (first_failure (ext w) l) as [[err|]| |];
      unfold logged; cbn; rewrite <- app_assoc; reflexivity.
Qed.

Lemma validate_run (w : World) :
  validate w = validation_outcome w (configItems (globals w)).
Proof. unfold validate, bind at 1, get_globals. apply validate_range. Qed.

Lemma validation_outcome_trace (w : World) (l : list ConfigItem) :
  trace (final (validation_outcome w l))
  = trace w ++ map validate_event (validated (ext w) l).
Proof.
  unfold validation_outcome. cbv zeta.
  destruct (first_failure (ext w) l) as [[err|]| |]; reflexivity.
Qed.

(** C3: the validation pass calls the validators in registry order and
    stops at the first one that does not return [nil]; when that
    validator returned an error the pass panics with it.  It never calls
    through [failFunction]: with the noting failure handler installed and
    a port of 80, the pass ends in a panic and the handler has not been
    called. *)
Theorem validate_bypasses_failFunction :
  (forall w, validate w = validation_outcome w (configItems (globals w)))
  /\ (forall w, since w (final (validate w))
                = map validate_event
                      (validated (ext w) (configItems (globals w))))
  /\ (forall w, List.filter is_fail_call (since w (final (validate w))) = [])
  /\ failFunction (globals port_setup_world) = noting_fail
  /\ validate port_setup_world
     = Panic port_error
             (logged port_setup_world
                     [EvValidate "server.address"; EvValidate "server.port"]).
Proof.
  split; [ exact validate_run |].
  assert (Hsince : forall w, since w (final (validate w))
                   = map validate_event
                         (validated (ext w) (configItems (globals w)))).
  { intros w. rewrite validate_run. apply since_app, validation_outcome_trace. }
  split; [ exact Hsince |].
  split; [ intros w; rewrite Hsince; by apply filter_map_none |].
  split; [ reflexivity |].
  vm_compute. reflexivity.
Qed.

(** ** Defaults only *)

Lemma SetupDefaultsOnly_run (items : list ConfigItem) (failFunc : ConfigFailFunc)
    (warnFunc : ConfigWarnFunc) (w : World) :
  SetupDefaultsOnly items failFunc warnFunc w
  = Normal tt
      {| globals := globals (assigned items failFunc warnFunc w);
         ext := with_store (ext w) (defaults_after items (store (ext w)));
         trace := trace w ++ map default_event items |}.
Proof.
  unfold SetupDefaultsOnly, bind at 1. rewrite assign_setup_run.
  rewrite setupDefaults_run. reflexivity.
Qed.





(* ===================================================================== *)
(** * Order of the passes; supported kinds *)
(* ===================================================================== *)

(** ** Reading the trace of a full setup *)

Lemma flag_event_not_store_call (item : ConfigItem) :
  is_store_call (flag_event item) = false.
Proof. unfold flag_event. destruct (supported_kind (Default item)); reflexivity. Qed.

Lemma flag_event_not_fail_call (item : ConfigItem) :
  is_fail_call (flag_event item) = false.
Proof. unfold flag_event. destruct (supported_kind (Default item)); reflexivity. Qed.

Lemma flag_event_not_bind (key : string) (item : ConfigItem) :
  is_bind_of key (flag_event item) = false.
Proof. unfold flag_event. destruct (supported_kind (Default item)); reflexivity. Qed.

Lemma flag_event_warning (item : ConfigItem) :
  is_warning (flag_event item) = is_unsupported item.
Proof.
  unfold flag_event, is_unsupported, is_supported.
  destruct (supported_kind (Default item)); reflexivity.
Qed.

Lemma flag_event_unsupported (item : ConfigItem) :
  is_unsupported item = true -> flag_event item = warn_event item.
Proof.
  unfold flag_event, is_unsupported, is_supported.
  destruct (supported_kind (Default item)); [ discriminate | reflexivity ].
Qed.

Lemma flag_event_add_flag (item : ConfigItem) :
  is_add_flag (flag_event item) = is_supported item.
Proof.
  unfold flag_event, is_supported.
  destruct (supported_kind (Default item)); reflexivity.
Qed.

Lemma warnings_of_flag_events (l : list ConfigItem) :
  List.filter is_warning (map flag_event l)
  = map warn_event (List.filter is_unsupported l).
Proof.
  induction l as [|item l IH]; [ reflexivity |].
  cbn [map List.filter]. rewrite flag_event_warning.
  destruct (is_unsupported item) eqn:Hu; cbn [map]; rewrite IH;
    [ rewrite (flag_event_unsupported _ Hu) |]; reflexivity.
Qed.

Lemma add_flags_of_flag_events (l : list ConfigItem) :
  List.filter is_add_flag (map flag_event l)
  = map flag_event (List.filter is_supported l).
Proof. apply filter_map_some. exact flag_event_add_flag. Qed.

Lemma store_calls_of_setup_events (cp sp : string) (items : list ConfigItem)
    (noflags : gmap string bool) :
  List.filter is_store_call (setup_events cp sp items noflags)
  = map default_event items ++ map env_event items
    ++ map bind_event (List.filter (has_flag noflags) items).
Proof.
  unfold setup_events. rewrite !List.filter_app.
  rewrite (filter_map_none _ flag_event) by apply flag_event_not_store_call.
  rewrite !filter_map_all by reflexivity. reflexivity.
Qed.

Lemma bind_events_of_skipped (key : string) (noflags : gmap string bool)
    (l : list ConfigItem) :
  key ∈ dom noflags ->
  List.filter (is_bind_of key) (map bind_event (List.filter (has_flag noflags) l))
  = [].
Proof.
  intros Hkey. induction l as [|item l IH]; [ reflexivity |].
  cbn [List.filter]. unfold has_flag at 1.
  destruct (noflags !! Key item) eqn:Hk; [ exact IH |].
  cbn [map List.filter is_bind_of bind_event].
  rewrite bool_decide_eq_false_2; [ exact IH |].
  intros Heq. apply elem_of_dom in Hkey as [b Hb]. rewrite <- Heq in Hb.
  congruence.
Qed.

Lemma has_flag_all (noflags : gmap string bool) (l : list ConfigItem) :
  Forall (fun item => Key item ∉ dom noflags) l ->
  List.filter (has_flag noflags) l = l.
Proof.
  induction 1 as [|item l Hitem _ IH]; [ reflexivity |].
  cbn [List.filter]. unfold has_flag at 1.
  apply not_elem_of_dom in Hitem. rewrite Hitem, IH. reflexivity.
Qed.

(** C7 (amended): the calls to the store of a full setup that runs to
    its end are a [SetDefault] for every item, followed by a [BindEnv]
    for every item, followed by a [BindPFlag] for every item whose key is
    not recorded as a key without flag, each pass in registry order.
    The third pass passes over the items whose key is recorded; it
    covers every item when no key of the registry is recorded. *)
Theorem passes_run_in_order (items : list ConfigItem) (failFunc : ConfigFailFunc)
    (warnFunc : ConfigWarnFunc) (cp sp : string) (w w' : World) :
  SetupWithOverriddenConfigPath items failFunc warnFunc cp sp w = Normal tt w' ->
  List.filter is_store_call (since w w')
  = map default_event items
    ++ map env_event items
    ++ map bind_event
         (List.filter (has_flag (configItemKeysWithNoFlags (globals w'))) items)
  /\ (Forall (fun item =>
                Key item ∉ dom (configItemKeysWithNoFlags (globals w'))) items ->
      List.filter is_store_call (since w w')
      = map default_event items ++ map env_event items
        ++ map bind_event items).
Proof.
  intros Hrun.
  destruct (Setup_outcome items failFunc warnFunc cp sp w)
    as [(Hab & _)|(w'' & Ho & _ & Ht & _)].
  { rewrite Hrun in Hab. discriminate. }
  rewrite Hrun in Ho. injection Ho as <-.
  rewrite (since_app _ _ _ Ht), store_calls_of_setup_events.
  split; [ reflexivity |].
  intros Hall. by rewrite has_flag_all.
Qed.

(** Witness of C7: the calls to the store of [Setup] with the items of
    the README; [some.key] has a structured default and is passed over
    by the third pass. *)
Lemma passes_run_in_order_witness :
  List.filter is_store_call
    (since fresh_world
       (final (SetupWithOverriddenConfigPath
                 [server_address; server_port; some_key] fail warn "" ""
                 fresh_world)))
  = [ EvSetDefault "server.address" (VString "");
      EvSetDefault "server.port" (VUint 8080);
      EvSetDefault "some.key" (VStruct "TopLevelStructuredConfig" []);
      EvBindEnv "server.address" "CONFIG_server_address";
      EvBindEnv "server.port" "CONFIG_server_port";
      EvBindEnv "some.key" "CONFIG_some_key";
      EvBindPFlag "server.address" "server.address";
      EvBindPFlag "server.port" "server.port" ].
Proof.
  refine (eq_trans
    (proj1 (passes_run_in_order [server_address; server_port; some_key]
              fail warn "" "" fresh_world
              (final (SetupWithOverriddenConfigPath
                        [server_address; server_port; some_key] fail warn
                        "" "" fresh_world)) _)) _).
  - vm_compute. reflexivity.
  - vm_compute. reflexivity.
Defined.

(** Counterexample to C7 as stated: [Setup] with the items
    [server.address] and [some.key] runs to its end, and its third pass
    binds a flag for [server.address] only; for the item [some.key] no
    flag is bound. *)
Lemma flag_binding_for_every_item_counterexample :
  is_normal (SetupWithOverriddenConfigPath [server_address; some_key]
               fail warn "" "" fresh_world) = true
  /\ List.filter is_store_call
       (since fresh_world
          (final (SetupWithOverriddenConfigPath [server_address; some_key]
                    fail warn "" "" fresh_world)))
     = [ EvSetDefault "server.address" (VString "");
         EvSetDefault "some.key" (VStruct "TopLevelStructuredConfig" []);
         EvBindEnv "server.address" "CONFIG_server_address";
         EvBindEnv "some.key" "CONFIG_some_key";
         EvBindPFlag "server.address" "server.address" ]
  /\ List.filter (is_bind_of "some.key")
       (since fresh_world
          (final (SetupWithOverriddenConfigPath [server_address; some_key]
                    fail warn "" "" fresh_world)))
     = [].
Proof. repeat split; vm_compute; reflexivity. Qed.

(** C4: when flag registration returns, every item whose default has a
    supported kind has a flag under its effective flag name, which is
    its [FlagName] when that is not empty and its key otherwise.  The
    flag is of the kind of the default, and its value and its registered
    default are the neutral value of the kind, whatever the declared
    default is; the registration call made for the item carries that
    name and that neutral value. *)
Theorem supported_item_gets_neutral_flag (cp sp : string) (w w' : World)
    (item : ConfigItem) (k : pflag.FlagKind) :
  initializeFlags cp sp w = Normal tt w' ->
  item ∈ configItems (globals w) ->
  supported_kind (Default item) = Some k ->
  exists name,
    (FlagName item <> "" -> name = FlagName item)
    /\ (FlagName item = "" -> name = Key item)
    /\ pflag.Lookup (CommandLine (ext w')) name
       = Some {| pflag.Name := name;
                 pflag.Usage := Description item;
                 pflag.Value := zero_value k;
                 pflag.DefValue := zero_value k;
                 pflag.Changed := false;
                 pflag.Var := None |}
    /\ pflag.kind_of (zero_value k) = k
    /\ EvAddFlag name (zero_value k) (Description item) ∈ since w w'.
Proof.
  intros Hrun Hin Hsup.
  apply initializeFlags_Normal in Hrun as (Ht & _ & _ & Hf & _).
  exists (flagname_of item).
  split; [ intros Hne; unfold flagname_of; by destruct (decide _) |].
  split; [ intros He; unfold flagname_of; by destruct (decide _) |].
  split; [ exact (Hf item k Hin Hsup) |].
  split; [ destruct k; reflexivity |].
  rewrite (since_app _ _ _ Ht). apply elem_of_app. right.
  apply list_elem_of_fmap. exists item. split; [| exact Hin ].
  unfold flag_event. rewrite Hsup. reflexivity.
Qed.

(** Witness of C4: [server.address] has no [FlagName] and gets its flag
    under its key; its default is a string and the flag holds the empty
    string. *)
Lemma supported_item_gets_neutral_flag_witness :
  pflag.Lookup
    (CommandLine (ext (final (initializeFlags "" ""
       (assigned [server_address; debug_item] fail warn fresh_world)))))
    "server.address"
  = Some {| pflag.Name := "server.address";
            pflag.Usage :=
              "ip address or hostname to listen on, can be left blank for localhost";
            pflag.Value := pflag.FString "";
            pflag.DefValue := pflag.FString "";
            pflag.Changed := false; pflag.Var := None |}.
Proof.
  destruct (supported_item_gets_neutral_flag "" ""
    (assigned [server_address; debug_item] fail warn fresh_world)
    (final (initializeFlags "" ""
       (assigned [server_address; debug_item] fail warn fresh_world)))
    server_address pflag.KString) as (name & _ & Hkey & Hflag & _).
  - vm_compute. reflexivity.
  - left.
  - reflexivity.
  - rewrite (Hkey eq_refl) in Hflag. exact Hflag.
Defined.

(** A boolean item with declared default [true] and the flag name
    [verbose] gets a flag of that name whose default is [false]. *)
Example debug_item_flag :
  pflag.Lookup
    (CommandLine (ext (final (initializeFlags "" ""
       (assigned [server_address; debug_item] fail warn fresh_world)))))
    "verbose"
  = Some {| pflag.Name := "verbose"; pflag.Usage := "verbose output";
            pflag.Value := pflag.FBool false;
            pflag.DefValue := pflag.FBool false;
            pflag.Changed := false; pflag.Var := None |}.
Proof. vm_compute. reflexivity. Qed.

(* ===================================================================== *)
(** * Unsupported kinds *)
(* ===================================================================== *)

(** ** Items without a supported kind *)

Lemma initializeFlag_unsupported (item : ConfigItem) (w : World) :
  supported_kind (Default item) = None ->
  initializeFlag item w
  = invoke (warnFunction (globals w) (unsupported_message (Key item)))
           (warned (Key item) w).
Proof.
  unfold initializeFlag. destruct (Default item); try discriminate; reflexivity.
Qed.

Lemma fail_calls_of_setup_events (cp sp : string) (items : list ConfigItem)
    (noflags : gmap string bool) :
  List.filter is_fail_call (setup_events cp sp items noflags) = [].
Proof.
  unfold setup_events. rewrite !List.filter_app.
  rewrite (filter_map_none _ flag_event) by apply flag_event_not_fail_call.
  rewrite !filter_map_none by reflexivity. reflexivity.
Qed.

Lemma warnings_of_setup_events (cp sp : string) (items : list ConfigItem)
    (noflags : gmap string bool) :
  List.filter is_warning (setup_events cp sp items noflags)
  = map warn_event (List.filter is_unsupported items).
Proof.
  unfold setup_events. rewrite !List.filter_app.
  rewrite warnings_of_flag_events.
  rewrite !filter_map_none by reflexivity.
  cbn. rewrite app_nil_r. reflexivity.
Qed.

Lemma add_flags_of_setup_events (cp sp : string) (items : list ConfigItem)
    (noflags : gmap string bool) :
  List.filter is_add_flag (setup_events cp sp items noflags)
  = path_flag_events cp sp ++ map flag_event (List.filter is_supported items).
Proof.
  unfold setup_events. rewrite !List.filter_app.
  rewrite add_flags_of_flag_events.
  rewrite !filter_map_none by reflexivity.
  cbn. rewrite app_nil_r. reflexivity.
Qed.

Lemma binds_of_setup_events (cp sp : string) (items : list ConfigItem)
    (noflags : gmap string bool) (key : string) :
  key ∈ dom noflags ->
  List.filter (is_bind_of key) (setup_events cp sp items noflags) = [].
Proof.
  intros Hkey. unfold setup_events. rewrite !List.filter_app.
  rewrite (filter_map_none _ flag_event) by apply flag_event_not_bind.
  rewrite !filter_map_none by reflexivity.
  rewrite bind_events_of_skipped by exact Hkey. reflexivity.
Qed.

Lemma warn_events_text (l : list ConfigItem) :
  map warn_event l
  = map (fun item =>
           EvWarnFunction
             ("unsupported data type for config item " +:+ Key item +:+
              ", cannot initialize command line argument, skipping this key"))
        l.
Proof. reflexivity. Qed.

(** C5: the step of flag registration for an item whose default has no
    supported kind leaves the flag set alone, records the key, gives one
    warning and ends as the warn callback ends.  The warning is the text
    [unsupported data type for config item], the key, and [, cannot
    initialize command line argument, skipping this key].  When a full
    setup with such an item returns, the key is recorded, the warnings
    given are one per such item, each with the key of its item, the flags
    registered are those of the two paths and of the items with a
    supported kind, the fail callback has not been called and no flag
    has been bound for the key. *)
Theorem unsupported_item_is_skipped (item : ConfigItem) :
  supported_kind (Default item) = None ->
  let message :=
    "unsupported data type for config item " +:+ Key item +:+
    ", cannot initialize command line argument, skipping this key" in
  (forall w1,
     initializeFlag item w1
     = invoke (warnFunction (globals w1) message) (warned (Key item) w1)
     /\ since w1 (warned (Key item) w1) = [EvWarnFunction message]
     /\ ext (warned (Key item) w1) = ext w1
     /\ Key item ∈ dom (configItemKeysWithNoFlags
                          (globals (warned (Key item) w1))))
  /\ forall items failFunc warnFunc cp sp w w',
       SetupWithOverriddenConfigPath items failFunc warnFunc cp sp w
       = Normal tt w' ->
       item ∈ items ->
       Key item ∈ dom (configItemKeysWithNoFlags (globals w'))
       /\ EvWarnFunction message ∈ since w w'
       /\ List.filter is_warning (since w w')
          = map (fun item =>
                   EvWarnFunction
                     ("unsupported data type for config item " +:+ Key item
                      +:+ ", cannot initialize command line argument, skipping this key"))
                (List.filter is_unsupported items)
       /\ List.filter is_add_flag (since w w')
          = path_flag_events cp sp
            ++ map flag_event (List.filter is_supported items)
       /\ List.filter is_fail_call (since w w') = []
       /\ List.filter (is_bind_of (Key item)) (since w w') = [].
Proof.
  intros Hsup message.
  split.
  { intros w1. split; [ by apply initializeFlag_unsupported |].
    split; [ by apply since_app |]. split; [ reflexivity |].
    cbn. rewrite dom_insert_L. set_solver. }
  intros items failFunc warnFunc cp sp w w' Hrun Hin.
  destruct (Setup_outcome items failFunc warnFunc cp sp w)
    as [(Hab & _)|(w'' & Ho & _ & Ht & _ & Hn)].
  { rewrite Hrun in Hab. discriminate. }
  rewrite Hrun in Ho. injection Ho as <-.
  rewrite (since_app _ _ _ Ht).
  assert (Hwarnings :
            List.filter is_warning
              (setup_events cp sp items (configItemKeysWithNoFlags (globals w')))
            = map warn_event (List.filter is_unsupported items))
    by apply warnings_of_setup_events.
  split; [ by apply Hn |].
  split.
  { unfold setup_events. apply elem_of_app. right. apply elem_of_app. left.
    apply list_elem_of_fmap. exists item. split; [| exact Hin ].
    unfold flag_event. rewrite Hsup. reflexivity. }
  split; [ rewrite Hwarnings; apply warn_events_text |].
  split; [ apply add_flags_of_setup_events |].
  split; [ apply fail_calls_of_setup_events |].
  apply binds_of_setup_events. by apply Hn.
Qed.

(** Witness of C5: the structured item [some.key] of the README. *)
Lemma unsupported_item_is_skipped_witness :
  List.filter is_warning
    (since fresh_world
       (final (SetupWithOverriddenConfigPath [server_address; some_key]
                 noting_fail warn "" "" fresh_world)))
  = [EvWarnFunction
       "unsupported data type for config item some.key, cannot initialize command line argument, skipping this key"].
Proof.
  refine (proj1 (proj2 (proj2
    (proj2 (unsupported_item_is_skipped some_key eq_refl)
       [server_address; some_key] noting_fail warn "" "" fresh_world
       (final (SetupWithOverriddenConfigPath [server_address; some_key]
                 noting_fail warn "" "" fresh_world))
       _ _)))).
  - vm_compute. reflexivity.
  - right. left.
Defined.

(* ===================================================================== *)
(** * Registry and recorded keys across operations *)
(* ===================================================================== *)

(** ** The package variables across operations *)

(** The part of a full setup that follows the three assignments. *)
Lemma stable_setup_passes (cp sp : string) :
  stable (kept any_event)
    (initializeFlags cp sp ;; pflag_Parse ;; setupDefaults ;; setupEnv ;;
     setupFlags).
Proof.
  apply stable_bind; [ by apply stable_initializeFlags |]. intros _.
  apply stable_bind; [ by apply stable_pflag_Parse |]. intros _.
  apply stable_bind; [ by apply stable_setupDefaults |]. intros _.
  apply stable_bind; [ by apply stable_setupEnv |]. intros _.
  by apply stable_setupFlags.
Qed.

Lemma Setup_kept (items : list ConfigItem) (failFunc : ConfigFailFunc)
    (warnFunc : ConfigWarnFunc) (cp sp : string) (w : World) :
  kept any_event (assigned items failFunc warnFunc w)
       (final (SetupWithOverriddenConfigPath items failFunc warnFunc cp sp w)).
Proof. apply (stable_setup_passes cp sp). Qed.


(** [performLoad] is defined in another file of the package; it stands
    here as a variable, with what the statements need of it as a
    hypothesis. *)
Section Operations.

Variable performLoad : M unit.

Lemma Load_final (w : World) :
  final (Load performLoad w)
  = match performLoad w with
    | Normal _ w1 => final (validate w1)
    | o => final o
    end.
Proof. unfold Load, bind. destruct (performLoad w); reflexivity. Qed.

Section Registry.

(** [performLoad] does not assign to [configItems]. *)
Hypothesis performLoad_keeps_registry :
  forall w, configItems (globals (final (performLoad w)))
            = configItems (globals w).

(** C9 (amended): no operation changes any field of any item.  After a
    setup call the registry is the list that the caller handed over,
    [EnvName] fields included; [Load] leaves the registry as it is; and
    [setupEnv], which derives the names, changes no package variable. *)
Theorem registry_is_never_mutated (op : Operation) (w : World) :
  configItems (globals (final (run performLoad op w))) = registry_after op w
  /\ globals (final (setupEnv w)) = globals w.
Proof.
  split; [| rewrite setupEnv_run; reflexivity ].
  destruct op as [items ff wf|items ff wf|items ff wf cp sp|];
    cbn [run registry_after].
  - unfold Setup.
    destruct (Setup_kept items ff wf "" "" w) as (Hi & _). exact Hi.
  - rewrite SetupDefaultsOnly_run. reflexivity.
  - destruct (Setup_kept items ff wf cp sp w) as (Hi & _). exact Hi.
  - rewrite Load_final. pose proof (performLoad_keeps_registry w) as Hload.
    destruct (performLoad w) as [[] w1|v w1|c w1]; cbn [final] in Hload |- *;
      try exact Hload.
    destruct (stable_validate any_event (fun _ => I) w1) as (Hi & _).
    rewrite Hi. exact Hload.
Qed.

End Registry.

Section NoFlags.

(** [performLoad] does not write [configItemKeysWithNoFlags]. *)
Hypothesis performLoad_keeps_no_flags :
  forall w, configItemKeysWithNoFlags (globals (final (performLoad w)))
            = configItemKeysWithNoFlags (globals w).




End NoFlags.

End Operations.

(** Counterexample to C9 as stated: after [Setup] with the item
    [server.address], whose [EnvName] is empty, the [EnvName] field of
    the item in the registry is still empty, while the name bound for
    the key is the derived one. *)
Lemma envName_backfill_counterexample :
  map EnvName (configItems (globals
    (final (Setup [server_address] fail warn fresh_world)))) = [""]
  /\ map EnvName (configItems (globals
       (final (Setup [server_address] fail warn fresh_world))))
     <> [derivedEnvName "server.address"]
  /\ viper.env (store (ext
       (final (Setup [server_address] fail warn fresh_world))))
       !! "server.address"
     = Some "CONFIG_server_address".
Proof.
  split; [ vm_compute; reflexivity |].
  split; [ vm_compute; discriminate | vm_compute; reflexivity ].
Qed.

(** Witness of C9: a full setup with the README items. *)
Lemma registry_is_never_mutated_witness :
  configItems (globals (final
    (run load_nothing (OpSetup [server_address; server_port] fail warn)
         fresh_world)))
  = [server_address; server_port].
Proof.
  refine (proj1 (registry_is_never_mutated load_nothing _
                   (OpSetup [server_address; server_port] fail warn)
                   fresh_world)).
  intros w. reflexivity.
Defined.


(* ===================================================================== *)
(** * ASCII keys and examples *)
(* ===================================================================== *)

(** ** Keys of ASCII bytes *)

Lemma DecodeRune_ascii (c : ascii) (t : list ascii) :
  is_ascii c = true ->
  utf8.DecodeRuneInString (c :: t) = (utf8.byte c, 1%nat).
Proof.
  unfold is_ascii, utf8.DecodeRuneInString, utf8.first. intros H.
  cbv zeta. rewrite H. reflexivity.
Qed.

Lemma characters_of_ascii (fuel : nat) (s : list ascii) :
  forallb is_ascii s = true -> (length s <= fuel)%nat ->
  characters_of fuel s = map (fun c => (utf8.byte c, [c])) s.
Proof.
  revert s. induction fuel as [|fuel IH]; intros s Hs Hlen.
  - destruct s; [ reflexivity | simpl in Hlen; lia ].
  - destruct s as [|c t]; [ reflexivity |].
    cbn [forallb] in Hs. apply andb_true_iff in Hs as [Hc Ht].
    cbn [characters_of]. cbv zeta. rewrite (DecodeRune_ascii c t Hc).
    cbn [fst snd take drop map]. rewrite take_0.
    rewrite drop_0.
    rewrite IH; [ reflexivity | exact Ht | simpl in Hlen; lia ].
Qed.

(** For a key of ASCII bytes the replacement works byte by byte. *)
Lemma ReplaceAllString_ascii (key : string) :
  forallb is_ascii (list_ascii_of_string key) = true ->
  regexp.ReplaceAllString key "_"
  = string_of_list_ascii (map replace_byte (list_ascii_of_string key)).
Proof.
  intros Hascii. unfold regexp.ReplaceAllString.
  rewrite replaceAll_characters by lia.
  rewrite drop_0, app_nil_l, characters_of_ascii by (exact Hascii || lia).
  f_equal. induction (list_ascii_of_string key) as [|c l IH]; [ reflexivity |].
  cbn [forallb] in Hascii. apply andb_true_iff in Hascii as [_ Hl].
  cbn [map concat]. rewrite (IH Hl).
  unfold replace_outside, replace_byte. cbn [fst snd].
  destruct (regexp.in_a_z_0_9 (utf8.byte c)); reflexivity.
Qed.

(** ** Examples *)

(** The key of the specification's example. *)
Example derivedEnvName_server_address :
  derivedEnvName "server.address" = "CONFIG_server_address".
Proof. reflexivity. Qed.

(** A character of two bytes is one character: it becomes one
    underscore. *)
Example derivedEnvName_two_byte_key :
  derivedEnvName two_byte_key = "CONFIG_caf__x".
Proof. vm_compute. reflexivity. Qed.

(** The calls of a full setup with the items of the README. *)
Example Setup_README_trace :
  trace (final (Setup [server_address; server_port; some_key] fail warn
                      fresh_world))
  = [ EvAddFlag "config-path" (pflag.FString "")
                "config file path without file name";
      EvAddFlag "secrets-path" (pflag.FString "")
                "secrets file path without file name";
      EvAddFlag "server.address" (pflag.FString "")
                (Description server_address);
      EvAddFlag "server.port" (pflag.FUint 0) (Description server_port);
      EvWarnFunction (unsupported_message "some.key");
      EvParse;
      EvSetDefault "server.address" (VString "");
      EvSetDefault "server.port" (VUint 8080);
      EvSetDefault "some.key" (VStruct "TopLevelStructuredConfig" []);
      EvBindEnv "server.address" "CONFIG_server_address";
      EvBindEnv "server.port" "CONFIG_server_port";
      EvBindEnv "some.key" "CONFIG_some_key";
      EvBindPFlag "server.address" "server.address";
      EvBindPFlag "server.port" "server.port" ].
Proof. vm_compute. reflexivity. Qed.

(** The exported profiles item gets a flag for a sequence of strings
    whose default is the empty sequence. *)
Example ConfigItemProfile_flag :
  pflag.Lookup
    (CommandLine (ext (final (Setup [ConfigItemProfile] fail warn fresh_world))))
    "profiles"
  = Some (pflag.newFlag "profiles" (pflag.FStringSlice [])
                        (Description ConfigItemProfile) None).
Proof. vm_compute. reflexivity. Qed.

(** A second full setup on the same flag set panics when it registers
    [config-path] again; the flag set of the example is named
    [service]. *)
Example Setup_twice_panics :
  exists w, Setup [server_address] fail warn
                  (final (Setup [server_address] fail warn fresh_world))
            = Panic "service flag redefined: config-path" w.
Proof. eexists. vm_compute. reflexivity. Qed.

(** With a port of 80 resolved from the configuration file and the
    failure handler [panic] of the README, the validation pass ends in a
    panic on the validator's error after two validator calls. *)
Example validate_low_port :
  exists w,
    validate (final (Setup [server_address; server_port; some_key] fail warn
                           low_port_world))
    = Panic port_error w
    /\ since (final (Setup [server_address; server_port; some_key] fail warn
                           low_port_world)) w
       = [EvValidate "server.address"; EvValidate "server.port"].
Proof. eexists. split; vm_compute; reflexivity. Qed.

(** After the earlier setup recorded [some.key], a setup on a new flag
    set that declares the key with a string default registers a flag
    for it and makes no flag binding. *)
Example later_setup_skips_recorded_key :
  since recorded_world
        (final (Setup [some_key_as_string] fail warn recorded_world))
  = [ EvAddFlag "config-path" (pflag.FString "")
                "config file path without file name";
      EvAddFlag "secrets-path" (pflag.FString "")
                "secrets file path without file name";
      EvAddFlag "some.key" (pflag.FString "")
                (Description some_key_as_string);
      EvParse;
      EvSetDefault "some.key" (VString "text");
      EvBindEnv "some.key" "CONFIG_some_key" ].
Proof. vm_compute. reflexivity. Qed.

(* ===================================================================== *)
(** * Further properties of the derived name *)
(* ===================================================================== *)

(** ** Length and stability of the derived name *)

Lemma length_string_of_list_ascii (l : list ascii) :
  String.length (string_of_list_ascii l) = length l.
Proof. induction l as [|c l IH]; simpl; [ reflexivity | rewrite IH; reflexivity ]. Qed.

Lemma length_list_ascii_of_string (s : string) :
  length (list_ascii_of_string s) = String.length s.
Proof. induction s as [|c s IH]; simpl; [ reflexivity | rewrite IH; reflexivity ]. Qed.

Lemma length_append (s1 s2 : string) :
  String.length (s1 +:+ s2) = (String.length s1 + String.length s2)%nat.
Proof. induction s1 as [|c s1 IH]; simpl; [ reflexivity | rewrite IH; reflexivity ]. Qed.

Lemma replaced_length (fuel : nat) (s : list ascii) :
  length (concat (map (replace_outside ["_"%char]) (characters_of fuel s)))
  = length (characters_of fuel s).
Proof.
  revert s. induction fuel as [|fuel IH]; intros s; [ reflexivity |].
  destruct s as [|c t]; [ reflexivity |].
  cbn [characters_of]. cbv zeta. cbn [map concat].
  rewrite length_app, IH. cbn [length]. f_equal.
  unfold replace_outside. cbn [fst snd].
  destruct (regexp.in_a_z_0_9 (fst (utf8.DecodeRuneInString (c :: t)))) eqn:Hin;
    [| reflexivity ].
  destruct (DecodeRune_kept _ Hin) as (c' & t' & [= <- <-] & Hd).
  rewrite Hd. reflexivity.
Qed.

Lemma characters_of_length (fuel : nat) (s : list ascii) :
  (length (characters_of fuel s) <= length s)%nat.
Proof.
  revert s. induction fuel as [|fuel IH]; intros s; [ simpl; lia |].
  destruct s as [|c t]; [ simpl; lia |].
  cbn [characters_of]. cbv zeta. cbn [length].
  pose proof (DecodeRune_width (c :: t) ltac:(discriminate)) as Hw.
  specialize (IH (drop (snd (utf8.DecodeRuneInString (c :: t))) (c :: t))).
  rewrite length_drop in IH. cbn [length] in *. lia.
Qed.

Lemma ReplaceAllString_length (key : string) :
  String.length (regexp.ReplaceAllString key "_") = length (characters key).
Proof.
  unfold regexp.ReplaceAllString, characters.
  rewrite length_string_of_list_ascii, replaceAll_characters by lia.
  rewrite drop_0, app_nil_l, length_map. apply replaced_length.
Qed.

(** X3: the derived name has, after its prefix of seven bytes, exactly
    one byte per character of the key; it is never longer than
    ["CONFIG_"] followed by the key. *)
Theorem derived_name_one_byte_per_character (key : string) :
  String.length (derivedEnvName key) = (7 + length (characters key))%nat
  /\ (length (characters key) <= String.length key)%nat
  /\ (String.length (derivedEnvName key) <= 7 + String.length key)%nat.
Proof.
  assert (Hlen : String.length (derivedEnvName key)
                 = (7 + length (characters key))%nat).
  { unfold derivedEnvName. rewrite length_append, ReplaceAllString_length.
    reflexivity. }
  assert (Hle : (length (characters key) <= String.length key)%nat).
  { unfold characters. rewrite length_map, <- length_list_ascii_of_string.
    apply characters_of_length. }
  split; [ exact Hlen |]. split; [ exact Hle | lia ].
Qed.

Lemma lower_digit_or_underscore_ascii (c : ascii) :
  lower_digit_or_underscore c = true ->
  is_ascii c = true /\ replace_byte c = c.
Proof.
  unfold lower_digit_or_underscore, is_ascii, replace_byte.
  destruct (regexp.in_a_z_0_9 (utf8.byte c)) eqn:Hin.
  - intros _. split; [| reflexivity ].
    unfold regexp.in_a_z_0_9 in Hin. lia.
  - cbn. intros Hc. apply bool_decide_eq_true in Hc. subst c.
    split; reflexivity.
Qed.

Lemma ReplaceAllString_bytes (key : string) :
  forallb lower_digit_or_underscore
    (list_ascii_of_string (regexp.ReplaceAllString key "_")) = true.
Proof.
  unfold regexp.ReplaceAllString.
  rewrite list_ascii_of_string_of_list_ascii.
  rewrite replaceAll_characters by lia.
  rewrite drop_0, app_nil_l. apply replaced_bytes.
Qed.

(** X4: the replacement is idempotent: applied to a name it has already
    produced it changes nothing, since the underscore it writes is
    itself outside [[a-z0-9]] and is replaced by an underscore. *)
Theorem replacement_is_idempotent (key : string) :
  regexp.ReplaceAllString (regexp.ReplaceAllString key "_") "_"
  = regexp.ReplaceAllString key "_".
Proof.
  pose proof (ReplaceAllString_bytes key) as Hbytes.
  set (body := regexp.ReplaceAllString key "_") in *.
  assert (Hall : forall l, forallb lower_digit_or_underscore l = true ->
                   forallb is_ascii l = true /\ map replace_byte l = l).
  { induction l as [|c l IH]; [ done |].
    cbn [forallb map]. intros H. apply andb_true_iff in H as [Hc Hl].
    destruct (lower_digit_or_underscore_ascii c Hc) as [Ha Hr].
    destruct (IH Hl) as [Hal Hrl]. rewrite Ha, Hal, Hr, Hrl. done. }
  destruct (Hall _ Hbytes) as [Hascii Hid].
  rewrite (ReplaceAllString_ascii body Hascii), Hid.
  apply string_of_list_ascii_of_string.
Qed.

(** X2: for a key of ASCII bytes the replacement works byte by byte:
    every byte in [[a-z0-9]] stays, every other byte becomes an
    underscore, and the derived name is seven bytes longer than the
    key. *)
Theorem ascii_key_replaced_bytewise (key : string) :
  forallb is_ascii (list_ascii_of_string key) = true ->
  derivedEnvName key
  = "CONFIG_" +:+ string_of_list_ascii
                    (map replace_byte (list_ascii_of_string key))
  /\ String.length (derivedEnvName key) = (7 + String.length key)%nat.
Proof.
  intros Hascii.
  assert (Heq : derivedEnvName key
                = "CONFIG_" +:+ string_of_list_ascii
                                  (map replace_byte (list_ascii_of_string key))).
  { unfold derivedEnvName. rewrite (ReplaceAllString_ascii key Hascii).
    reflexivity. }
  split; [ exact Heq |].
  rewrite Heq, length_append, length_string_of_list_ascii, length_map.
  rewrite length_list_ascii_of_string. reflexivity.
Qed.

(** Witness of X2: the key [server.address]. *)
Lemma ascii_key_replaced_bytewise_witness :
  derivedEnvName "server.address" = "CONFIG_server_address"
  /\ String.length (derivedEnvName "server.address") = 21%nat.
Proof.
  exact (ascii_key_replaced_bytewise "server.address" eq_refl).
Defined.

(* ===================================================================== *)
(** * Explicit names; when validation returns *)
(* ===================================================================== *)

(** ** Explicit environment variable names *)




(** ** When validation returns *)

Lemma first_failure_none (e : Ext) (l : list ConfigItem) :
  first_failure e l = Returns None <-> Forall (accepts e) l.
Proof.
  induction l as [|item l IH]; cbn [first_failure].
  - split; [ constructor | reflexivity ].
  - unfold accepts at 1. split.
    + intros H. destruct (Validate item (Key item) e) as [[err|]| |] eqn:Hv;
        try discriminate.
      constructor; [ exact Hv | by apply IH ].
    + intros H. apply Forall_cons in H as [Hitem Hl].
      unfold accepts in Hitem. rewrite Hitem. by apply IH.
Qed.

Lemma validated_all (e : Ext) (l : list ConfigItem) :
  Forall (accepts e) l -> validated e l = l.
Proof.
  induction 1 as [|item l Hitem _ IH]; [ reflexivity |].
  cbn [validated]. unfold accepts in Hitem. rewrite Hitem, IH. reflexivity.
Qed.

(** X5: the validation pass returns normally exactly when every
    validator of the registry returns [nil] on the resolved store; it
    has then called the validator of every item once, in registry
    order, and nothing else. *)
Theorem validate_returns_iff_all_accept (w : World) :
  (is_normal (validate w) = true
   <-> Forall (accepts (ext w)) (configItems (globals w)))
  /\ (Forall (accepts (ext w)) (configItems (globals w)) ->
      validate w
      = Normal tt (logged w (map validate_event (configItems (globals w))))).
Proof.
  rewrite validate_run. unfold validation_outcome. cbv zeta.
  split.
  - rewrite <- first_failure_none.
    destruct (first_failure (ext w) (configItems (globals w))) as [[err|]| |];
      cbn; split; congruence.
  - intros Hall. rewrite (validated_all _ _ Hall).
    apply first_failure_none in Hall. rewrite Hall. reflexivity.
Qed.

(** Witness of X5: two items without validation. *)
Lemma validate_returns_iff_all_accept_witness :
  validate (assigned [server_address; some_key] fail warn fresh_world)
  = Normal tt (logged (assigned [server_address; some_key] fail warn fresh_world)
                      [EvValidate "server.address"; EvValidate "some.key"]).
Proof.
  refine (proj2 (validate_returns_iff_all_accept
    (assigned [server_address; some_key] fail warn fresh_world)) _).
  repeat constructor.
Defined.

(* ===================================================================== *)
(** * Callbacks and flags across the passes *)
(* ===================================================================== *)

(** ** Callbacks and registered flags across the passes *)

Lemma same_flag_refl (fl : pflag.Flag) : same_flag fl fl.
Proof. repeat split. Qed.

Lemma same_flag_trans (fl1 fl2 fl3 : pflag.Flag) :
  same_flag fl1 fl2 -> same_flag fl2 fl3 -> same_flag fl1 fl3.
Proof.
  intros (H1 & H2 & H3 & H4) (H1' & H2' & H3' & H4').
  repeat split; congruence.
Qed.

#[global] Instance steady_preorder : PreOrder steady.
Proof.
  split.
  - intros w. split; [ done |]. split; [ done |].
    intros name fl Hfl. exists fl. split; [ done | apply same_flag_refl ].
  - intros w1 w2 w3 (Hf1 & Hw1 & Hfl1) (Hf2 & Hw2 & Hfl2).
    split; [ congruence |]. split; [ congruence |].
    intros name fl Hfl. destruct (Hfl1 name fl Hfl) as (fl2 & Hfl2' & Hs12).
    destruct (Hfl2 name fl2 Hfl2') as (fl3 & Hfl3 & Hs23).
    exists fl3. split; [ done | by eapply same_flag_trans ].
Qed.

(** A step that leaves the callbacks and the flag set as they are. *)
Lemma steady_same (w w' : World) :
  failFunction (globals w') = failFunction (globals w) ->
  warnFunction (globals w') = warnFunction (globals w) ->
  CommandLine (ext w') = CommandLine (ext w) ->
  steady w w'.
Proof.
  intros Hf Hw Hc. split; [ done |]. split; [ done |].
  intros name fl Hfl. exists fl. rewrite Hc. split; [ done | apply same_flag_refl ].
Qed.

Lemma same_flag_store_flag (x : pflag.PackageVar) (v : pflag.FlagValue)
    (fl : pflag.Flag) :
  same_flag fl (pflag.store_flag x v fl).
Proof.
  unfold pflag.store_flag. destruct (decide _); repeat split.
Qed.

Lemma steady_assign_var (x : pflag.PackageVar) (s : string) :
  stable steady (assign_var x s).
Proof.
  intros w. rewrite assign_var_run. cbn [final].
  destruct (with_var_configItems (globals w) x s) as (_ & _ & Hf & Hw).
  split; [ exact Hf |]. split; [ exact Hw |].
  intros name fl Hfl. cbn. rewrite lookup_fmap, Hfl. cbn.
  eexists. split; [ reflexivity | apply same_flag_store_flag ].
Qed.

Lemma steady_pflag_Var (value : pflag.FlagValue) (name usage : string)
    (var : option pflag.PackageVar) :
  stable steady (pflag_Var value name usage var).
Proof.
  intros w. unfold pflag_Var, bind, emit, get_ext, pflag.AddFlag. cbn.
  destruct (pflag.formal (CommandLine (ext w)) !! name) eqn:Hname; cbn.
  - by apply steady_same.
  - split; [ done |]. split; [ done |]. cbn.
    intros name' fl Hfl. exists fl. split; [| apply same_flag_refl ].
    rewrite lookup_insert_ne; [ done |]. intros ->. congruence.
Qed.

Lemma steady_initializeFlag (item : ConfigItem) :
  stable steady (initializeFlag item).
Proof.
  unfold initializeFlag.
  destruct (Default item); try apply steady_pflag_Var;
    intros w; unfold bind, record_no_flag, call_warnFunction, get_globals,
      put_globals, emit, invoke; cbn;
    destruct (warnFunction _ _); by apply steady_same.
Qed.

Lemma steady_initializeFlags (cp sp : string) :
  stable steady (initializeFlags cp sp).
Proof.
  unfold initializeFlags, pflag_StringVar.
  apply stable_bind.
  { apply stable_bind; [ apply steady_assign_var |].
    intros _. apply steady_pflag_Var. }
  intros _. apply stable_bind.
  { apply stable_bind; [ apply steady_assign_var |].
    intros _. apply steady_pflag_Var. }
  intros _. apply stable_bind; [ apply stable_get_globals |]. intros g.
  apply stable_range. intros item _. apply steady_initializeFlag.
Qed.

Lemma steady_pflag_Parse : stable steady pflag_Parse.
Proof.
  apply stable_bind; [ intros w; by apply steady_same |]. intros _.
  apply stable_bind; [ apply stable_get_ext |]. intros e0.
  apply stable_range. intros arg _. apply stable_with_ext. intros w.
  unfold pflag.setArg.
  destruct (pflag.formal (CommandLine (ext w)) !! fst arg) as [fl|] eqn:Hfl;
    [| reflexivity ].
  destruct (pflag.kind_eqb _ _); [| reflexivity ].
  unfold bind at 1, put_ext. cbn [final].
  assert (Hflags : forall name fl0,
            pflag.formal (CommandLine (ext w)) !! name = Some fl0 ->
            exists fl',
              <[fst arg := pflag.set fl (snd arg)]>
                (pflag.formal (CommandLine (ext w))) !! name = Some fl'
              /\ same_flag fl0 fl').
  { intros name fl0 Hfl0. destruct (decide (fst arg = name)) as [<-|Hne].
    - rewrite lookup_insert_eq. eexists. split; [ reflexivity |].
      rewrite Hfl in Hfl0. injection Hfl0 as <-. repeat split.
    - rewrite lookup_insert_ne by done. exists fl0.
      split; [ done | apply same_flag_refl ]. }
  match goal with
  | |- steady _ (final (_ ?w1)) =>
    assert (Hs : steady w w1) by (split; [ done |]; split; [ done |];
                                  exact Hflags);
    cbn [pflag.Var pflag.set];
    destruct (pflag.Var fl) as [x|];
      [ etransitivity; [ exact Hs | apply steady_assign_var ] | exact Hs ]
  end.
Qed.

Lemma steady_setupDefaults : stable steady setupDefaults.
Proof. intros w. rewrite setupDefaults_run. by apply steady_same. Qed.

Lemma steady_setupEnv : stable steady setupEnv.
Proof. intros w. rewrite setupEnv_run. by apply steady_same. Qed.

Lemma steady_bindFlag (key flagname : string) :
  stable steady (bindFlag key flagname).
Proof.
  intros w. unfold bindFlag, viper_BindPFlag_Lookup, pflag_Lookup,
    call_failFunction, bind, get_ext, get_globals, emit, put_ext, ret, invoke.
  cbn. destruct (pflag.Lookup _ _); cbn; [ by apply steady_same |].
  destruct (failFunction _ _); by apply steady_same.
Qed.

Lemma steady_setupFlags : stable steady setupFlags.
Proof.
  apply stable_bind; [ apply stable_get_globals |]. intros g.
  apply stable_range. intros item _.
  apply stable_with_globals. intros w.
  destruct (configItemKeysWithNoFlags (globals w) !! Key item);
    [ reflexivity | apply steady_bindFlag ].
Qed.

Lemma steady_setup_passes (cp sp : string) :
  stable steady
    (initializeFlags cp sp ;; pflag_Parse ;; setupDefaults ;; setupEnv ;;
     setupFlags).
Proof.
  apply stable_bind; [ apply steady_initializeFlags |]. intros _.
  apply stable_bind; [ apply steady_pflag_Parse |]. intros _.
  apply stable_bind; [ apply steady_setupDefaults |]. intros _.
  apply stable_bind; [ apply steady_setupEnv |]. intros _.
  apply steady_setupFlags.
Qed.

(** X11: a setup call installs the callbacks it is given before it does
    anything else, and no pass of the setup replaces them: however a
    full setup or a defaults-only setup ends, [failFunction] and
    [warnFunction] are the functions that were passed to it. *)
Theorem setup_installs_callbacks (items : list ConfigItem)
    (failFunc : ConfigFailFunc) (warnFunc : ConfigWarnFunc) (cp sp : string)
    (w : World) :
  (failFunction (globals (final
     (SetupWithOverriddenConfigPath items failFunc warnFunc cp sp w))) = failFunc
   /\ warnFunction (globals (final
        (SetupWithOverriddenConfigPath items failFunc warnFunc cp sp w)))
      = warnFunc)
  /\ (failFunction (globals (final
        (SetupDefaultsOnly items failFunc warnFunc w))) = failFunc
      /\ warnFunction (globals (final
           (SetupDefaultsOnly items failFunc warnFunc w))) = warnFunc).
Proof.
  split.
  - destruct (steady_setup_passes cp sp (assigned items failFunc warnFunc w))
      as (Hf & Hw & _).
    split; [ exact Hf | exact Hw ].
  - rewrite SetupDefaultsOnly_run. split; reflexivity.
Qed.

(* ===================================================================== *)
(** * The steps of a full setup *)
(* ===================================================================== *)

(** ** A full setup that returns, step by step *)

Lemma Setup_Normal_inv (items : list ConfigItem) (failFunc : ConfigFailFunc)
    (warnFunc : ConfigWarnFunc) (cp sp : string) (w w' : World) :
  SetupWithOverriddenConfigPath items failFunc warnFunc cp sp w = Normal tt w' ->
  exists w1 w2,
    initializeFlags cp sp (assigned items failFunc warnFunc w) = Normal tt w1
    /\ pflag_Parse w1 = Normal tt w2
    /\ configItems (globals w2) = items
    /\ w' = {| globals := globals w2;
               ext := with_store (ext w2)
                 (flags_after (configItemKeysWithNoFlags (globals w2))
                    (CommandLine (ext w2)) items
                    (env_after items (defaults_after items (store (ext w2)))));
               trace := trace w2 ++ map default_event items
                        ++ map env_event items
                        ++ map bind_event
                             (List.filter
                                (has_flag (configItemKeysWithNoFlags (globals w2)))
                                items) |}.
Proof.
  unfold SetupWithOverriddenConfigPath. intros H.
  apply bind_Normal in H as ([] & w0 & H0 & H).
  rewrite assign_setup_run in H0. injection H0 as <-.
  apply bind_Normal in H as ([] & w1 & H1 & H).
  apply bind_Normal in H as ([] & w2 & H2 & H).
  exists w1, w2. split; [ exact H1 |]. split; [ exact H2 |].
  pose proof (pflag_Parse_quiet w1) as Hq. rewrite H2 in Hq.
  destruct Hq as (Ht2 & Hi2 & Hn2 & Hs2 & Hd2). cbn in Ht2, Hi2, Hn2, Hs2, Hd2.
  apply initializeFlags_Normal in H1 as (Ht1 & Hi1 & Hs1 & Hf1 & Hn1).
  assert (Hitems : configItems (globals w2) = items).
  { rewrite Hi2, Hi1. reflexivity. }
  split; [ exact Hitems |].
  revert H. unfold bind at 1. rewrite setupDefaults_run.
  unfold bind at 1. rewrite setupEnv_run. cbn [globals ext trace].
  rewrite setupFlags_run.
  2:{ intros item Hin Hhas. cbn in *. rewrite Hitems in Hin.
      unfold has_flag in Hhas. rewrite Hn2 in Hhas.
      destruct (supported_kind (Default item)) as [k|] eqn:Hsup.
      - apply elem_of_dom, Hd2, elem_of_dom. unfold pflag.Lookup in Hf1.
        rewrite (Hf1 item k Hin Hsup). eauto.
      - specialize (Hn1 item Hin Hsup). apply elem_of_dom in Hn1 as [b Hb].
        rewrite Hb in Hhas. discriminate. }
  intros [= <-]. cbn [globals ext trace with_store CommandLine store].
  rewrite Hitems. rewrite <- !app_assoc. reflexivity.
Qed.

(** How a full setup that does not return has ended: while the flags
    were registered or parsed, after events of those two steps only. *)
Lemma Setup_abort_events (Q : Event -> Prop) (items : list ConfigItem)
    (failFunc : ConfigFailFunc) (warnFunc : ConfigWarnFunc) (cp sp : string)
    (w : World) :
  (forall name value usage, Q (EvAddFlag name value usage)) ->
  (forall message, Q (EvWarnFunction message)) ->
  Q EvParse ->
  is_normal (SetupWithOverriddenConfigPath items failFunc warnFunc cp sp w)
  = false ->
  exists evs,
    trace (final (SetupWithOverriddenConfigPath items failFunc warnFunc cp sp w))
    = trace w ++ evs
    /\ Forall Q evs.
Proof.
  intros HQ1 HQ2 HQ3.
  set (o := SetupWithOverriddenConfigPath items failFunc warnFunc cp sp w).
  set (w0 := assigned items failFunc warnFunc w).
  assert (Ho : o = match initializeFlags cp sp w0 with
                   | Normal _ w1 =>
                     match pflag_Parse w1 with
                     | Normal _ w2 => (setupDefaults ;; setupEnv ;; setupFlags) w2
                     | Panic v w' => Panic v w'
                     | Exit c w' => Exit c w'
                     end
                   | Panic v w' => Panic v w'
                   | Exit c w' => Exit c w'
                   end) by reflexivity.
  clearbody o.
  pose proof (stable_initializeFlags Q cp sp HQ1 HQ2 w0) as Hinit.
  assert (Hforall : forall nf evs, Forall (allowed Q nf) evs -> Forall Q evs).
  { intros nf evs H. eapply Forall_impl; [ exact H |]. by intros ev [HQ _]. }
  destruct (initializeFlags cp sp w0) as [[] w1|v w1|c w1] eqn:Hrun;
    cbn in Hinit; subst o.
  2,3: intros _; destruct Hinit as (_ & _ & _ & evs & Ht & Hall);
       exists evs; split; [ exact Ht | by eapply Hforall ].
  pose proof (stable_pflag_Parse Q HQ3 w1) as Hparse.
  destruct (pflag_Parse w1) as [[] w2|v w2|c w2] eqn:Hrun2; cbn in Hparse.
  2,3: intros _; destruct Hinit as (_ & _ & _ & evs1 & Ht1 & Hall1);
       destruct Hparse as (_ & _ & _ & evs2 & Ht2 & Hall2);
       exists (evs1 ++ evs2); (split; [ cbn; rewrite Ht2, Ht1, app_assoc; done |]);
       apply Forall_app; split; by eapply Hforall.
  intros Hab. exfalso.
  destruct (Setup_outcome items failFunc warnFunc cp sp w)
    as [(_ & _ & _)|(w' & Ho & _)].
  - assert (Hn : exists w', (setupDefaults ;; setupEnv ;; setupFlags) w2
                             = Normal tt w').
    { apply initializeFlags_Normal in Hrun as (Ht1 & Hi1 & Hs1 & Hf1 & Hn1).
      pose proof (pflag_Parse_quiet w1) as Hq. rewrite Hrun2 in Hq.
      destruct Hq as (Ht2 & Hi2 & Hn2 & Hs2 & Hd2).
      cbn in Ht2, Hi2, Hn2, Hs2, Hd2.
      unfold bind at 1. rewrite setupDefaults_run.
      unfold bind at 1. rewrite setupEnv_run. cbn [globals ext trace].
      rewrite setupFlags_run; [ eauto |].
      intros item Hin Hhas. cbn in *. rewrite Hi2, Hi1 in Hin.
      unfold has_flag in Hhas. rewrite Hn2 in Hhas.
      destruct (supported_kind (Default item)) as [k|] eqn:Hsup.
      - apply elem_of_dom, Hd2, elem_of_dom. unfold pflag.Lookup in Hf1.
        rewrite (Hf1 item k Hin Hsup). eauto.
      - specialize (Hn1 item Hin Hsup). apply elem_of_dom in Hn1 as [b Hb].
        rewrite Hb in Hhas. discriminate. }
    destruct Hn as [w' Hn]. rewrite Hn in Hab. discriminate.
  - unfold SetupWithOverriddenConfigPath in Ho. unfold bind at 1 in Ho.
    rewrite assign_setup_run in Ho. unfold bind at 1 in Ho.
    fold w0 in Ho. rewrite Hrun in Ho. unfold bind at 1 in Ho.
    rewrite Hrun2 in Ho. rewrite Ho in Hab. discriminate.
Qed.

(* ===================================================================== *)
(** * Calls a setup makes and keys it records *)
(* ===================================================================== *)

(** ** What a setup never calls *)

Lemma Forall_no_fail_call_filter (evs : list Event) :
  Forall no_fail_call evs -> List.filter is_fail_call evs = [].
Proof.
  induction 1 as [|ev evs Hev _ IH]; [ reflexivity |].
  simpl. rewrite Hev. exact IH.
Qed.

(** X6: no setup calls [failFunction]: however a full setup ends,
    with whatever registry, command line and state, and however a
    defaults-only setup ends, the fail callback has not been called.
    The branch of [bindFlag] that reports a missing flag is never taken
    in a full setup, since every item that is not recorded as a key
    without flag has had its flag registered before. *)
Theorem setup_never_calls_failFunction (items : list ConfigItem)
    (failFunc : ConfigFailFunc) (warnFunc : ConfigWarnFunc) (cp sp : string)
    (w : World) :
  List.filter is_fail_call
    (since w (final (SetupWithOverriddenConfigPath items failFunc warnFunc
                       cp sp w))) = []
  /\ List.filter is_fail_call
       (since w (final (SetupDefaultsOnly items failFunc warnFunc w))) = [].
Proof.
  split.
  - destruct (Setup_outcome items failFunc warnFunc cp sp w)
      as [(Hab & _)|(w' & Ho & _ & Ht & _)].
    + destruct (Setup_abort_events no_fail_call items failFunc warnFunc cp sp w)
        as (evs & Ht & Hall); try done.
      rewrite (since_app _ _ _ Ht). by apply Forall_no_fail_call_filter.
    + rewrite Ho. cbn [final]. rewrite (since_app _ _ _ Ht).
      apply fail_calls_of_setup_events.
  - rewrite SetupDefaultsOnly_run. cbn [final].
    erewrite since_app by reflexivity. by apply filter_map_none.
Qed.

(** ** Registration, then parsing, then the store *)

Lemma flag_event_registration (item : ConfigItem) :
  is_registration (flag_event item) = true.
Proof.
  unfold flag_event, is_registration.
  destruct (supported_kind (Default item)); reflexivity.
Qed.

Lemma forallb_map_all {A} (p : Event -> bool) (f : A -> Event) (l : list A) :
  (forall x, p (f x) = true) -> forallb p (map f l) = true.
Proof.
  intros H. induction l as [|x l IH]; [ reflexivity |].
  simpl. rewrite H, IH. reflexivity.
Qed.

(** X7: a full setup that returns has parsed the command line exactly
    once, after every flag registration and warning and before every
    call to the store: its calls are registrations and warnings, then
    the one parse, then store calls only. *)
Theorem parse_between_registration_and_store (items : list ConfigItem)
    (failFunc : ConfigFailFunc) (warnFunc : ConfigWarnFunc) (cp sp : string)
    (w w' : World) :
  SetupWithOverriddenConfigPath items failFunc warnFunc cp sp w = Normal tt w' ->
  exists pre post,
    since w w' = pre ++ EvParse :: post
    /\ pre = path_flag_events cp sp ++ map flag_event items
    /\ forallb is_registration pre = true
    /\ forallb is_store_call post = true.
Proof.
  intros Hrun.
  destruct (Setup_outcome items failFunc warnFunc cp sp w)
    as [(Hab & _)|(w'' & Ho & _ & Ht & _)].
  { rewrite Hrun in Hab. discriminate. }
  rewrite Hrun in Ho. injection Ho as <-.
  rewrite (since_app _ _ _ Ht). unfold setup_events.
  eexists. eexists. split; [ rewrite app_assoc; reflexivity |].
  split; [ reflexivity |]. split.
  - rewrite forallb_app. rewrite (forallb_map_all _ flag_event)
      by apply flag_event_registration. reflexivity.
  - rewrite !forallb_app. rewrite !forallb_map_all by reflexivity. reflexivity.
Qed.

(** Witness of X7: the README items. *)
Lemma parse_between_registration_and_store_witness :
  exists pre post,
    since fresh_world
          (final (SetupWithOverriddenConfigPath [server_address; some_key]
                    fail warn "" "" fresh_world))
    = pre ++ EvParse :: post
    /\ pre = path_flag_events "" "" ++ map flag_event [server_address; some_key]
    /\ forallb is_registration pre = true
    /\ forallb is_store_call post = true.
Proof.
  refine (parse_between_registration_and_store [server_address; some_key]
            fail warn "" "" fresh_world _ _).
  vm_compute. reflexivity.
Defined.

(** ** The keys without flag after registration *)

Lemma initializeFlag_Normal_noflags (item : ConfigItem) (w w' : World) :
  initializeFlag item w = Normal tt w' ->
  configItemKeysWithNoFlags (globals w')
  = if is_unsupported item
    then <[Key item := true]> (configItemKeysWithNoFlags (globals w))
    else configItemKeysWithNoFlags (globals w).
Proof.
  unfold initializeFlag, is_unsupported, is_supported.
  destruct (Default item); cbn [supported_kind negb];
    try (intros H; apply pflag_Var_Normal in H as [_ ->]; reflexivity);
    unfold bind, record_no_flag, call_warnFunction, get_globals,
      put_globals, emit, invoke; cbn;
    (destruct (warnFunction _ _) as [[]| |]; [| discriminate | discriminate ]);
    intros [= <-]; reflexivity.
Qed.

Lemma initializeFlags_range_noflags (l : list ConfigItem) (w w' : World) :
  range l initializeFlag w = Normal tt w' ->
  dom (configItemKeysWithNoFlags (globals w'))
  = dom (configItemKeysWithNoFlags (globals w)) ∪ unsupported_keys l.
Proof.
  revert w. induction l as [|x l IH]; intros w H.
  - injection H as <-. unfold unsupported_keys. cbn.
    by rewrite (right_id_L ∅ (∪)).
  - apply range_Normal_cons in H as (w1 & Hx & Hl).
    apply initializeFlag_Normal_noflags in Hx. apply IH in Hl.
    rewrite Hl, Hx. unfold unsupported_keys. cbn [List.filter].
    destruct (is_unsupported x); cbn [map list_to_set].
    + rewrite dom_insert_L.
      rewrite (comm_L (∪) {[Key x]} (dom _)), <- (assoc_L (∪)). reflexivity.
    + reflexivity.
Qed.

Lemma initializeFlags_noflags (cp sp : string) (w w' : World) :
  initializeFlags cp sp w = Normal tt w' ->
  dom (configItemKeysWithNoFlags (globals w'))
  = dom (configItemKeysWithNoFlags (globals w))
    ∪ unsupported_keys (configItems (globals w)).
Proof.
  unfold initializeFlags, pflag_StringVar. intros H.
  apply bind_Normal in H as ([] & w1 & H1 & H).
  apply bind_Normal in H1 as ([] & w0 & H0 & H1).
  apply bind_Normal in H as ([] & w3 & H3 & H).
  apply bind_Normal in H3 as ([] & w2 & H2 & H3).
  apply bind_Normal in H as (g & w4 & Hg & H).
  injection Hg as <- <-.
  apply pflag_Var_Normal in H1 as [_ ->].
  apply pflag_Var_Normal in H3 as [_ ->].
  revert H0 H2. unfold assign_var, bind, get_globals, put_globals. cbn.
  intros [= <-] [= <-].
  apply initializeFlags_range_noflags in H. exact H.
Qed.

(** X8: when a full setup returns, the keys recorded as keys without
    flag are exactly those recorded before together with the keys of the
    items whose default has no supported kind: no key of a supported
    item is added unless an unsupported item declares it too, and no
    pass after the registration adds or removes a key. *)
Theorem recorded_keys_are_the_unsupported (items : list ConfigItem)
    (failFunc : ConfigFailFunc) (warnFunc : ConfigWarnFunc) (cp sp : string)
    (w w' : World) :
  SetupWithOverriddenConfigPath items failFunc warnFunc cp sp w = Normal tt w' ->
  dom (configItemKeysWithNoFlags (globals w'))
  = dom (configItemKeysWithNoFlags (globals w)) ∪ unsupported_keys items.
Proof.
  intros Hrun.
  apply Setup_Normal_inv in Hrun as (w1 & w2 & H1 & H2 & _ & ->).
  cbn [globals]. apply initializeFlags_noflags in H1.
  pose proof (pflag_Parse_quiet w1) as Hq. rewrite H2 in Hq.
  destruct Hq as (_ & _ & Hn2 & _). cbn in Hn2.
  rewrite Hn2, H1. reflexivity.
Qed.

(** Witness of X8: of the README items only [some.key] is recorded. *)
Lemma recorded_keys_are_the_unsupported_witness :
  dom (configItemKeysWithNoFlags (globals
    (final (SetupWithOverriddenConfigPath [server_address; server_port; some_key]
              fail warn "" "" fresh_world))))
  = dom (configItemKeysWithNoFlags (globals fresh_world))
    ∪ unsupported_keys [server_address; server_port; some_key].
Proof.
  refine (recorded_keys_are_the_unsupported
            [server_address; server_port; some_key] fail warn "" ""
            fresh_world _ _).
  vm_compute. reflexivity.
Defined.

(* ===================================================================== *)
(** * The path flags; a second full setup *)
(* ===================================================================== *)

(** ** The two path flags *)

Lemma steady_lookup (w w' : World) (name : string) (fl : pflag.Flag) :
  steady w w' ->
  pflag.formal (CommandLine (ext w)) !! name = Some fl ->
  exists fl', pflag.Lookup (CommandLine (ext w')) name = Some fl'
              /\ same_flag fl fl'.
Proof. intros (_ & _ & H) Hfl. exact (H name fl Hfl). Qed.

Lemma path_flags_after_initializeFlags (cp sp : string) (w w' : World) :
  initializeFlags cp sp w = Normal tt w' ->
  (exists fl, pflag.Lookup (CommandLine (ext w')) "config-path" = Some fl
              /\ same_flag (config_path_flag cp) fl)
  /\ (exists fl, pflag.Lookup (CommandLine (ext w')) "secrets-path" = Some fl
                 /\ same_flag (secrets_path_flag sp) fl).
Proof.
  unfold initializeFlags, pflag_StringVar. intros H.
  apply bind_Normal in H as ([] & w1 & H1 & H).
  apply bind_Normal in H1 as ([] & w0 & H0 & H1).
  apply pflag_Var_Normal in H1 as [_ Hw1].
  assert (Hrest : steady w1 w').
  { rewrite <- (final_Normal _ _ _ H).
    assert (Hst : stable steady
              ((assign_var pflag.VarSecretsPath sp ;;
                pflag_Var (pflag.FString sp) "secrets-path"
                  "secrets file path without file name"
                  (Some pflag.VarSecretsPath)) ;;
               g <- get_globals ;; range (configItems g) initializeFlag)).
    { apply stable_bind.
      { apply stable_bind; [ apply steady_assign_var |].
        intros _. apply steady_pflag_Var. }
      intros _. apply stable_bind; [ apply stable_get_globals |]. intros g.
      apply stable_range. intros item _. apply steady_initializeFlag. }
    apply Hst. }
  apply bind_Normal in H as ([] & w3 & H3 & H).
  apply bind_Normal in H3 as ([] & w2 & H2 & H3).
  apply pflag_Var_Normal in H3 as [_ Hw3].
  assert (Hloop : steady w3 w').
  { rewrite <- (final_Normal _ _ _ H).
    assert (Hst : stable steady
              (g <- get_globals ;; range (configItems g) initializeFlag)).
    { apply stable_bind; [ apply stable_get_globals |]. intros g.
      apply stable_range. intros item _. apply steady_initializeFlag. }
    apply Hst. }
  split.
  - apply (steady_lookup w1 w' _ _ Hrest). rewrite Hw1. cbn.
    apply lookup_insert_eq.
  - apply (steady_lookup w3 w' _ _ Hloop). rewrite Hw3. cbn.
    apply lookup_insert_eq.
Qed.

Lemma path_flags_after_setup (items : list ConfigItem)
    (failFunc : ConfigFailFunc) (warnFunc : ConfigWarnFunc) (cp sp : string)
    (w w' : World) :
  SetupWithOverriddenConfigPath items failFunc warnFunc cp sp w = Normal tt w' ->
  (exists fl, pflag.Lookup (CommandLine (ext w')) "config-path" = Some fl
              /\ same_flag (config_path_flag cp) fl)
  /\ (exists fl, pflag.Lookup (CommandLine (ext w')) "secrets-path" = Some fl
                 /\ same_flag (secrets_path_flag sp) fl).
Proof.
  intros Hrun.
  apply Setup_Normal_inv in Hrun as (w1 & w2 & H1 & H2 & _ & ->).
  cbn [ext with_store CommandLine].
  apply path_flags_after_initializeFlags in H1 as [(fc & Hfc & Hsc) (fs & Hfs & Hss)].
  pose proof (steady_pflag_Parse w1) as Hparse. rewrite H2 in Hparse.
  cbn in Hparse.
  destruct (steady_lookup w1 w2 _ _ Hparse Hfc) as (fc' & Hfc' & Hsc').
  destruct (steady_lookup w1 w2 _ _ Hparse Hfs) as (fs' & Hfs' & Hss').
  split.
  - exists fc'. split; [ exact Hfc' | by eapply same_flag_trans ].
  - exists fs'. split; [ exact Hfs' | by eapply same_flag_trans ].
Qed.

(** X9: when a full setup returns, the flags [config-path] and
    [secrets-path] are registered with the two path arguments as their
    registered defaults and with the package variables [configPath] and
    [secretsPath] behind them; neither the items nor the parse have
    replaced them. *)
Theorem path_flags_carry_the_overrides (items : list ConfigItem)
    (failFunc : ConfigFailFunc) (warnFunc : ConfigWarnFunc) (cp sp : string)
    (w w' : World) :
  SetupWithOverriddenConfigPath items failFunc warnFunc cp sp w = Normal tt w' ->
  (exists fl, pflag.Lookup (CommandLine (ext w')) "config-path" = Some fl
              /\ pflag.Name fl = "config-path"
              /\ pflag.DefValue fl = pflag.FString cp
              /\ pflag.Var fl = Some pflag.VarConfigPath)
  /\ (exists fl, pflag.Lookup (CommandLine (ext w')) "secrets-path" = Some fl
                 /\ pflag.Name fl = "secrets-path"
                 /\ pflag.DefValue fl = pflag.FString sp
                 /\ pflag.Var fl = Some pflag.VarSecretsPath).
Proof.
  intros Hrun.
  destruct (path_flags_after_setup _ _ _ _ _ _ _ Hrun)
    as [(fc & Hfc & Hn & _ & Hd & Hv) (fs & Hfs & Hn' & _ & Hd' & Hv')].
  split; [ exists fc | exists fs ]; repeat split; assumption.
Qed.

(** Witness of X9: an integration test setup with the paths [cfg] and
    [sec]. *)
Lemma path_flags_carry_the_overrides_witness :
  exists fl,
    pflag.Lookup
      (CommandLine (ext (final (SetupWithOverriddenConfigPath [server_address]
                                  fail warn "cfg" "sec" fresh_world))))
      "config-path" = Some fl
    /\ pflag.Name fl = "config-path"
    /\ pflag.DefValue fl = pflag.FString "cfg"
    /\ pflag.Var fl = Some pflag.VarConfigPath.
Proof.
  refine (proj1 (path_flags_carry_the_overrides [server_address] fail warn
                   "cfg" "sec" fresh_world _ _)).
  vm_compute. reflexivity.
Defined.

(** ** A setup on a flag set that has the path flags already *)

Lemma Setup_config_path_taken (items : list ConfigItem)
    (failFunc : ConfigFailFunc) (warnFunc : ConfigWarnFunc) (cp sp : string)
    (w : World) :
  is_Some (pflag.Lookup (CommandLine (ext w)) "config-path") ->
  SetupWithOverriddenConfigPath items failFunc warnFunc cp sp w
  = Panic (pflag.name (CommandLine (ext w)) +:+ " flag redefined: config-path")
          (config_path_taken items failFunc warnFunc cp w).
Proof.
  intros [fl Hfl].
  unfold SetupWithOverriddenConfigPath, initializeFlags, pflag_StringVar,
    pflag_Var, assign_var, assign_setup, bind, get_globals, put_globals,
    emit, get_ext, put_ext, pflag.AddFlag, panic.
  cbn. unfold pflag.Lookup in Hfl. rewrite lookup_fmap, Hfl. reflexivity.
Qed.

Lemma config_path_taken_flag (items : list ConfigItem)
    (failFunc : ConfigFailFunc) (warnFunc : ConfigWarnFunc) (cp : string)
    (w : World) (fl : pflag.Flag) :
  pflag.Lookup (CommandLine (ext w)) "config-path" = Some fl ->
  pflag.Var fl = Some pflag.VarConfigPath ->
  exists fl',
    pflag.Lookup (CommandLine (ext (config_path_taken items failFunc warnFunc
                                      cp w))) "config-path" = Some fl'
    /\ pflag.Value fl' = pflag.FString cp
    /\ pflag.DefValue fl' = pflag.DefValue fl.
Proof.
  intros Hfl Hvar. unfold pflag.Lookup in *. cbn.
  rewrite lookup_fmap, Hfl. cbn. eexists. split; [ reflexivity |].
  unfold pflag.store_flag. rewrite Hvar.
  destruct (decide _); [ done | congruence ].
Qed.

(** X10: a full setup is not repeatable on the same flag set.  After a
    full setup that returned, every further full setup, whatever its
    arguments, panics when it registers [config-path] again, with the
    message of the flag library, which begins with the name of the flag
    set.  It has by then replaced the registry and the callbacks and
    written the new default path to [configPath]; it makes no call to the
    store.  The flag [config-path] of the earlier setup, which shares its
    storage with [configPath], holds the new default path as its value,
    while its registered default is the earlier one. *)
Theorem second_full_setup_panics (items items' : list ConfigItem)
    (failFunc failFunc' : ConfigFailFunc) (warnFunc warnFunc' : ConfigWarnFunc)
    (cp sp cp' sp' : string) (w w1 : World) :
  SetupWithOverriddenConfigPath items failFunc warnFunc cp sp w = Normal tt w1 ->
  SetupWithOverriddenConfigPath items' failFunc' warnFunc' cp' sp' w1
  = Panic (pflag.name (CommandLine (ext w1)) +:+ " flag redefined: config-path")
          (config_path_taken items' failFunc' warnFunc' cp' w1)
  /\ since w1 (config_path_taken items' failFunc' warnFunc' cp' w1)
     = [EvAddFlag "config-path" (pflag.FString cp')
                  "config file path without file name"]
  /\ store (ext (config_path_taken items' failFunc' warnFunc' cp' w1))
     = store (ext w1)
  /\ configItems (globals (config_path_taken items' failFunc' warnFunc' cp' w1))
     = items'
  /\ configPath (globals (config_path_taken items' failFunc' warnFunc' cp' w1))
     = cp'
  /\ exists fl,
       pflag.Lookup
         (CommandLine (ext (config_path_taken items' failFunc' warnFunc' cp'
                              w1))) "config-path" = Some fl
       /\ pflag.Value fl = pflag.FString cp'
       /\ pflag.DefValue fl = pflag.FString cp.
Proof.
  intros Hrun.
  destruct (path_flags_after_setup _ _ _ _ _ _ _ Hrun)
    as [(fc & Hfc & _ & _ & Hd & Hv) _].
  split; [ apply Setup_config_path_taken; eauto |].
  split; [ by apply since_app |].
  split; [ reflexivity |]. split; [ reflexivity |]. split; [ reflexivity |].
  destruct (config_path_taken_flag items' failFunc' warnFunc' cp' w1 fc Hfc Hv)
    as (fl' & Hfl' & Hval & Hdef).
  exists fl'. split; [ exact Hfl' |]. split; [ exact Hval |].
  rewrite Hdef. exact Hd.
Qed.

(** Witness of X10: [Setup] called twice with the README items, on a
    flag set named [service]. *)
Lemma second_full_setup_panics_witness :
  SetupWithOverriddenConfigPath [server_address; server_port] fail warn "" ""
    (final (SetupWithOverriddenConfigPath [server_address; server_port]
              fail warn "" "" fresh_world))
  = Panic (pflag.name
             (CommandLine (ext (final
                (SetupWithOverriddenConfigPath [server_address; server_port]
                   fail warn "" "" fresh_world))))
           +:+ " flag redefined: config-path")
      (config_path_taken [server_address; server_port] fail warn ""
         (final (SetupWithOverriddenConfigPath [server_address; server_port]
                   fail warn "" "" fresh_world))).
Proof.
  refine (proj1 (second_full_setup_panics [server_address; server_port]
    [server_address; server_port] fail fail warn warn "" "" "" ""
    fresh_world _ _)).
  vm_compute. reflexivity.
Defined.

(* ===================================================================== *)
(** * Distinct flag names *)
(* ===================================================================== *)

(** ** Flag names of a setup that returns *)







(** The key [server.address] declared twice with a supported kind: the
    setup panics on the second registration. *)
Example duplicate_key_panics :
  exists w, Setup [server_address; server_address_again] fail warn fresh_world
            = Panic "service flag redefined: server.address" w.
Proof. eexists. vm_compute. reflexivity. Qed.

(* ===================================================================== *)
(** * The store after a full setup *)
(* ===================================================================== *)

(** ** The store after a full setup *)

Lemma flags_after_cons (noflags : gmap string bool) (fs : pflag.FlagSet)
    (item : ConfigItem) (l : list ConfigItem) (v : viper.Viper) :
  flags_after noflags fs (item :: l) v
  = flags_after noflags fs l
      (if has_flag noflags item
       then fst (viper.BindPFlag v (Key item)
                                 (pflag.Lookup fs (flagname_of item)))
       else v).
Proof. reflexivity. Qed.

Lemma flags_after_app (noflags : gmap string bool) (fs : pflag.FlagSet)
    (l1 l2 : list ConfigItem) (v : viper.Viper) :
  flags_after noflags fs (l1 ++ l2) v
  = flags_after noflags fs l2 (flags_after noflags fs l1 v).
Proof. unfold flags_after. apply foldl_app. Qed.

Lemma BindPFlag_layers (v : viper.Viper) (key : string)
    (flag : option pflag.Flag) :
  viper.defaults (fst (viper.BindPFlag v key flag)) = viper.defaults v
  /\ viper.env (fst (viper.BindPFlag v key flag)) = viper.env v.
Proof. destruct flag; done. Qed.

Lemma flags_after_layers (noflags : gmap string bool) (fs : pflag.FlagSet)
    (l : list ConfigItem) (v : viper.Viper) :
  viper.defaults (flags_after noflags fs l v) = viper.defaults v
  /\ viper.env (flags_after noflags fs l v) = viper.env v.
Proof.
  revert v. induction l as [|item l IH]; intros v; [ done |].
  rewrite flags_after_cons.
  destruct (has_flag noflags item); [| apply IH ].
  destruct (IH (fst (viper.BindPFlag v (Key item)
                       (pflag.Lookup fs (flagname_of item))))) as [H1 H2].
  destruct (BindPFlag_layers v (Key item) (pflag.Lookup fs (flagname_of item)))
    as [H3 H4].
  rewrite H1, H2, H3, H4. done.
Qed.

Lemma env_after_layers (l : list ConfigItem) (v : viper.Viper) :
  viper.defaults (env_after l v) = viper.defaults v
  /\ viper.pflags (env_after l v) = viper.pflags v.
Proof.
  revert v. induction l as [|item l IH]; intros v; [ done |].
  rewrite env_after_cons.
  destruct (IH (fst (viper.BindEnv v (Key item) (env_name_of item)))) as [H1 H2].
  rewrite H1, H2. done.
Qed.

Lemma flags_after_other (noflags : gmap string bool) (fs : pflag.FlagSet)
    (l : list ConfigItem) (v : viper.Viper) (key : string) :
  key ∉ map Key l ->
  viper.pflags (flags_after noflags fs l v) !! key = viper.pflags v !! key.
Proof.
  revert v. induction l as [|item l IH]; intros v Hnot; [ reflexivity |].
  rewrite flags_after_cons.
  apply not_elem_of_cons in Hnot as [Hne Hnot].
  rewrite IH by exact Hnot.
  destruct (has_flag noflags item); [| reflexivity ].
  unfold viper.BindPFlag. destruct (pflag.Lookup fs (flagname_of item)); cbn;
    [| reflexivity ].
  by apply lookup_insert_ne.
Qed.

Lemma flags_after_skipped (noflags : gmap string bool) (fs : pflag.FlagSet)
    (l : list ConfigItem) (v : viper.Viper) (key : string) :
  key ∈ dom noflags ->
  viper.pflags (flags_after noflags fs l v) !! key = viper.pflags v !! key.
Proof.
  intros Hkey. revert v. induction l as [|item l IH]; intros v; [ reflexivity |].
  rewrite flags_after_cons, IH. unfold has_flag.
  destruct (noflags !! Key item) eqn:Hk; [ reflexivity |].
  unfold viper.BindPFlag. destruct (pflag.Lookup fs (flagname_of item)); cbn;
    [| reflexivity ].
  apply lookup_insert_ne. intros Heq. rewrite Heq in Hk.
  apply elem_of_dom in Hkey as [b Hb]. congruence.
Qed.

Lemma flags_after_last (noflags : gmap string bool) (fs : pflag.FlagSet)
    (l1 l2 : list ConfigItem) (item : ConfigItem) (fl : pflag.Flag)
    (v : viper.Viper) :
  has_flag noflags item = true ->
  pflag.Lookup fs (flagname_of item) = Some fl ->
  Key item ∉ map Key l2 ->
  viper.pflags (flags_after noflags fs (l1 ++ item :: l2) v) !! Key item
  = Some (pflag.Name fl).
Proof.
  intros Hhas Hfl Hnot. rewrite flags_after_app, flags_after_cons.
  rewrite flags_after_other by exact Hnot.
  rewrite Hhas, Hfl. cbn. apply lookup_insert_eq.
Qed.

Lemma unrelated_other_key (item : ConfigItem) (l : list ConfigItem) :
  Forall (fun other => ~ related (key_path (Key item)) (key_path (Key other)))
         l ->
  Key item ∉ map Key l.
Proof.
  intros Hl Hin. apply list_elem_of_fmap in Hin as (other & Heq & Hin).
  rewrite Forall_forall in Hl. apply (Hl other Hin).
  rewrite Heq. by left.
Qed.

(** X12: when a full setup returns, the store holds the registrations
    of an item whose key is declared once: its default is found under
    the key, the key is bound to the environment variable name of the
    item (the explicit one, or else the derived one), and it is bound to
    the effective flag name when it is not recorded as a key without
    flag; for a recorded key the flag binding is the one the store had
    before.  The hypotheses delimit the registries in which no other
    declaration touches what the store keeps for the key: the keys are
    ASCII, the key of the item is in lower case, no other item has a key
    that is the same up to case or lies above or below it at the dots,
    and no environment variable was bound to the key before. *)
Theorem full_setup_registers_every_source (items l1 l2 : list ConfigItem)
    (item : ConfigItem) (failFunc : ConfigFailFunc) (warnFunc : ConfigWarnFunc)
    (cp sp : string) (w w' : World) :
  SetupWithOverriddenConfigPath items failFunc warnFunc cp sp w = Normal tt w' ->
  items = l1 ++ item :: l2 ->
  Forall ascii_key items ->
  strings.ToLower (Key item) = Key item ->
  Forall (fun other => ~ related (key_path (Key item)) (key_path (Key other)))
         (l1 ++ l2) ->
  viper.env (store (ext w)) !! Key item = None ->
  viper.searchMap (viper.defaults (store (ext w'))) (key_path (Key item))
  = Some (viper.Leaf (Default item))
  /\ viper.env (store (ext w')) !! Key item = Some (env_name_of item)
  /\ (Key item ∉ dom (configItemKeysWithNoFlags (globals w')) ->
      viper.pflags (store (ext w')) !! Key item = Some (flagname_of item))
  /\ (Key item ∈ dom (configItemKeysWithNoFlags (globals w')) ->
      viper.pflags (store (ext w')) !! Key item
      = viper.pflags (store (ext w)) !! Key item).
Proof.
  intros Hrun Hitems _ _ Hothers _.
  apply Forall_app in Hothers as [_ Hlater].
  pose proof (unrelated_other_key item l2 Hlater) as Hlast.
  apply Setup_Normal_inv in Hrun as (w1 & w2 & H1 & H2 & Hi2 & ->).
  cbn [globals ext store with_store].
  pose proof (pflag_Parse_quiet w1) as Hq. rewrite H2 in Hq.
  destruct Hq as (_ & _ & Hn2 & Hs2 & _). cbn in Hn2, Hs2.
  pose proof (steady_pflag_Parse w1) as Hsteady. rewrite H2 in Hsteady.
  cbn in Hsteady.
  apply initializeFlags_Normal in H1 as (_ & _ & Hs1 & Hf1 & Hn1).
  cbn in Hs1, Hf1, Hn1.
  destruct (flags_after_layers (configItemKeysWithNoFlags (globals w2))
              (CommandLine (ext w2)) items
              (env_after items (defaults_after items (store (ext w2)))))
    as [Hd He].
  destruct (env_after_layers items (defaults_after items (store (ext w2))))
    as [Hd' Hp'].
  destruct (defaults_after_layers items (store (ext w2))) as (_ & Hp'' & _).
  assert (Hin : item ∈ items).
  { rewrite Hitems. apply elem_of_app. right. left. }
  split.
  { rewrite Hd, Hd', Hitems. by apply defaults_after_found. }
  split.
  { rewrite He, Hitems. by apply env_after_last. }
  split.
  - intros Hfree.
    destruct (supported_kind (Default item)) as [k|] eqn:Hsup.
    2:{ exfalso. apply Hfree. rewrite Hn2. by apply Hn1. }
    destruct (steady_lookup w1 w2 _ _ Hsteady (Hf1 item k Hin Hsup))
      as (fl & Hfl & Hname & _).
    rewrite Hitems at 1.
    rewrite (flags_after_last _ _ l1 l2 item fl); [| | exact Hfl | exact Hlast ].
    + rewrite Hname. reflexivity.
    + unfold has_flag. apply not_elem_of_dom in Hfree. rewrite Hfree. reflexivity.
  - intros Hrec. rewrite flags_after_skipped by exact Hrec.
    rewrite Hp', Hp'', Hs2, Hs1. reflexivity.
Qed.

(** Witness of X12: [server.port] of the README after [Setup]. *)
Lemma full_setup_registers_every_source_witness :
  viper.pflags (store (ext (final
    (SetupWithOverriddenConfigPath [server_address; server_port; some_key]
       fail warn "" "" fresh_world)))) !! "server.port"
  = Some "server.port".
Proof.
  refine (proj1 (proj2 (proj2
    (full_setup_registers_every_source [server_address; server_port; some_key]
       [server_address] [some_key] server_port fail warn "" "" fresh_world
       _ _ eq_refl _ eq_refl _ eq_refl))) _).
  - vm_compute. reflexivity.
  - repeat constructor.
  - apply (bool_decide_unpack _). vm_compute. exact I.
  - apply not_elem_of_dom. vm_compute. reflexivity.
Defined.

(* ===================================================================== *)
(** * Repeated defaults-only setup *)
(* ===================================================================== *)

(** ** Defaults-only setup, twice *)

(** X13: defaults-only setup can be repeated.  A second call with the
    same arguments returns normally, makes the same [SetDefault] calls
    again and leaves the package variables, the flag set and every layer
    of the store exactly as the first call left them. *)
Theorem defaults_only_is_repeatable (items : list ConfigItem)
    (failFunc : ConfigFailFunc) (warnFunc : ConfigWarnFunc) (w : World) :
  SetupDefaultsOnly items failFunc warnFunc
    (final (SetupDefaultsOnly items failFunc warnFunc w))
  = Normal tt
      (logged (final (SetupDefaultsOnly items failFunc warnFunc w))
              (map default_event items)).
Proof.
  rewrite !SetupDefaultsOnly_run. cbn [final]. unfold logged, assigned.
  cbn [globals ext trace store with_store CommandLine os_Args os_Environ
       configPath secretsPath configItemKeysWithNoFlags].
  unfold with_store. cbn [CommandLine store os_Args os_Environ].
  rewrite defaults_after_idempotent. reflexivity.
Qed.
